(** * SAGAlyze: the fairness / bias-audit engine

    A shallow embedding of the fairness metrics module of the server
    ([calculateConfusionMatrix], [calculateBrierScore],
    [calculateFairnessMetricsPerGroup], [calculateDisparityMetrics]) and the
    properties its specification states about it.

    Numbers.  Counters and lengths are natural numbers.  Every other
    JavaScript [number] is an exact rational ([Q]): rounding of IEEE doubles
    is not modelled.  An operation whose JavaScript result is not a finite
    number (a division by zero gives NaN or an infinity, [Math.max()] of no
    argument gives -Infinity) and a method call on [undefined] are failures
    of the error monad [option]; the totality theorems below show that the
    engine never reaches one.  Equality of rationals is [Qeq] ([==]).

    Beside the engine the development covers the audit computation of the
    route that calls it, the access tokens ([generateAccessToken] with its
    random bytes as an argument, [isValidTokenFormat]), the comparison of two
    analyses of a lesion ([calculateImprovement]) and the scores kept from
    the classifier's answer. *)

From Stdlib Require Import List String Bool Arith ZArith QArith Qminmax Lia Lqa.
From Stdlib Require Import Permutation Ascii.
From Stdlib.Strings Require Import Byte.
From Stdlib Require Import Qround.
Import ListNotations.

Local Open Scope string_scope.
Local Open Scope nat_scope.

(** ** A small error monad *)

Definition bind {A B : Type} (m : option A) (k : A -> option B) : option B :=
  match m with
  | Some a => k a
  | None => None
  end.

Notation "x <- m ;; k" := (bind m (fun x => k))
  (at level 61, m at next level, right associativity).

Fixpoint foldM {A S : Type} (step : S -> A -> option S) (xs : list A) (s : S)
  : option S :=
  match xs with
  | [] => Some s
  | x :: rest => s' <- step s x ;; foldM step rest s'
  end.

Fixpoint mapM {A B : Type} (f : A -> option B) (xs : list A) : option (list B) :=
  match xs with
  | [] => Some []
  | x :: rest => y <- f x ;; ys <- mapM f rest ;; Some (y :: ys)
  end.

(** ** Numbers *)

Definition Q_of_nat (n : nat) : Q := inject_Z (Z.of_nat n).

(** [a / b] on finite numbers; [None] when JavaScript gives NaN or an
    infinity. *)
Definition jsdiv (a b : Q) : option Q :=
  if Qeq_bool b 0 then None else Some (a / b)%Q.

(** [a > b] *)
Definition Qgtb (a b : Q) : bool := negb (Qle_bool a b).

(** [Math.max(...xs)] and [Math.min(...xs)]: no argument gives an infinity. *)
Definition Math_max (xs : list Q) : option Q :=
  match xs with
  | [] => None
  | x :: rest => Some (fold_left Qmax rest x)
  end.

Definition Math_min (xs : list Q) : option Q :=
  match xs with
  | [] => None
  | x :: rest => Some (fold_left Qmin rest x)
  end.

(** ** Data model (shared/schema.ts and the interfaces of the module) *)

Module Analysis.
Record t := mk {
  classification : string;
  groundTruthLabel : option string;   (* text, nullable *)
  confidence : Z                      (* integer, not null *)
}.
End Analysis.

Module Patient.
Record t := mk {
  fitzpatrickType : option string     (* text, nullable *)
}.
End Patient.

Record AnalysisWithPatient := {
  analysis : Analysis.t;
  patient : Patient.t
}.

Module Prediction.
Record t := mk {
  classification : string;
  groundTruth : string;
  confidence : Q                        (* number *)
}.
End Prediction.

Module ConfusionMatrix.
Record t := mk {
  truePositives : nat;
  falsePositives : nat;
  trueNegatives : nat;
  falseNegatives : nat
}.
End ConfusionMatrix.

Record FairnessMetrics := {
  fitzpatrickType : string;
  totalPredictions : nat;
  positivePredictions : nat;
  truePositives : nat;
  falsePositives : nat;
  trueNegatives : nat;
  falseNegatives : nat;
  positiveRate : Q;
  truePositiveRate : Q;
  falsePositiveRate : Q;
  precision : Q;
  recall : Q;
  f1Score : Q;
  brierScore : Q;
  averageConfidence : Q;
  accuracyAtConfidence : Q
}.

Record DisparityMetrics := {
  overallDisparityScore : Q;
  demographicParityGap : Q;
  equalOpportunityGap : Q;
  calibrationGap : Q;
  parityAlert : bool;
  opportunityAlert : bool;
  calibrationAlert : bool
}.

(** ** Constants *)

Definition POSITIVE_CLASSIFICATIONS : list string := ["Malignant"; "Infection"].
Definition PARITY_THRESHOLD : Q := 15 # 100.
Definition OPPORTUNITY_THRESHOLD : Q := 15 # 100.
Definition CALIBRATION_THRESHOLD : Q := 10 # 100.

(** [arr.includes(s)] on an array of strings *)
Definition includes (arr : list string) (s : string) : bool :=
  existsb (fun e => String.eqb e s) arr.

Definition isPositivePrediction (classification : string) : bool :=
  includes POSITIVE_CLASSIFICATIONS classification.

Definition isPositiveGroundTruth (groundTruth : string) : bool :=
  includes POSITIVE_CLASSIFICATIONS groundTruth.

(** ** calculateConfusionMatrix *)

(** The four counters of the loop, in the order tp, fp, tn, fn. *)
Definition counters : Type := (nat * nat * nat * nat)%type.

Definition confusionStep (c : counters) (p : Prediction.t) : counters :=
  let '(tp, fp, tn, fn) := c in
  let predictedPositive := isPositivePrediction (Prediction.classification p) in
  let actualPositive := isPositiveGroundTruth (Prediction.groundTruth p) in
  if predictedPositive && actualPositive then (S tp, fp, tn, fn)
  else if predictedPositive && negb actualPositive then (tp, S fp, tn, fn)
  else if negb predictedPositive && negb actualPositive then (tp, fp, S tn, fn)
  else if negb predictedPositive && actualPositive then (tp, fp, tn, S fn)
  else (tp, fp, tn, fn).

Definition calculateConfusionMatrix (predictions : list Prediction.t)
  : ConfusionMatrix.t :=
  let '(tp, fp, tn, fn) := fold_left confusionStep predictions (0, 0, 0, 0) in
  ConfusionMatrix.mk tp fp tn fn.

(** ** calculateBrierScore *)

Definition brierStep (totalSquaredError : Q) (pred : Prediction.t) : Q :=
  let predictedProb := (Prediction.confidence pred / 100)%Q in
  let actualOutcome : Q :=
    if String.eqb (Prediction.classification pred) (Prediction.groundTruth pred)
    then 1%Q else 0%Q in
  (totalSquaredError + (predictedProb - actualOutcome) ^ 2)%Q.

Definition calculateBrierScore (predictions : list Prediction.t) : option Q :=
  if Nat.eqb (List.length predictions) 0 then Some 0%Q
  else
    let totalSquaredError := fold_left brierStep predictions 0%Q in
    jsdiv totalSquaredError (Q_of_nat (List.length predictions)).

(** ** calculateFairnessMetricsPerGroup *)

(** Truthiness of a nullable string: [null], [undefined] and the empty
    string are falsy. *)
Definition truthy (s : option string) : bool :=
  match s with
  | Some v => negb (String.eqb v EmptyString)
  | None => false
  end.

(** [s || d] on a nullable string *)
Definition orDefault (s : option string) (d : string) : string :=
  match s with
  | Some v => if String.eqb v EmptyString then d else v
  | None => d
  end.

(** [s!]: the value itself.  It is only applied to labels already seen
    truthy by the grouping loop, so the [None] case is never evaluated. *)
Definition nonNull (s : option string) : string :=
  match s with
  | Some v => v
  | None => EmptyString
  end.

(** A [Map<string, V>]: the entries in insertion order, keys distinct. *)
Definition JsMap (V : Type) : Type := list (string * V).

Fixpoint Map_has {V : Type} (m : JsMap V) (k : string) : bool :=
  match m with
  | [] => false
  | (k', _) :: rest => if String.eqb k' k then true else Map_has rest k
  end.

Fixpoint Map_get {V : Type} (m : JsMap V) (k : string) : option V :=
  match m with
  | [] => None
  | (k', v) :: rest => if String.eqb k' k then Some v else Map_get rest k
  end.

(** [m.set(k, v)]: an existing key keeps its place, a new one goes last. *)
Fixpoint Map_set {V : Type} (m : JsMap V) (k : string) (v : V) : JsMap V :=
  match m with
  | [] => [(k, v)]
  | (k', v') :: rest =>
      if String.eqb k' k then (k', v) :: rest else (k', v') :: Map_set rest k v
  end.

(** One turn of the grouping loop.  [m.get(k)!.push(item)] changes the array
    held by the map in place; on [undefined] it throws. *)
Definition groupStep (groupedByFitzpatrick : JsMap (list AnalysisWithPatient))
    (item : AnalysisWithPatient) : option (JsMap (list AnalysisWithPatient)) :=
  if negb (truthy (Analysis.groundTruthLabel (analysis item)))
  then Some groupedByFitzpatrick
  else
    let fitzType := orDefault (Patient.fitzpatrickType (patient item)) "Unknown" in
    let grouped :=
      if negb (Map_has groupedByFitzpatrick fitzType)
      then Map_set groupedByFitzpatrick fitzType []
      else groupedByFitzpatrick in
    items <- Map_get grouped fitzType ;;
    Some (Map_set grouped fitzType (items ++ [item])%list).

Definition toPrediction (item : AnalysisWithPatient) : Prediction.t :=
  Prediction.mk (Analysis.classification (analysis item))
                (nonNull (Analysis.groundTruthLabel (analysis item)))
                (inject_Z (Analysis.confidence (analysis item))).

(** The guarded quotients of the loop body, one definition per [const]. *)

Definition positiveRateOf (totalPredictions positivePredictions : nat) : option Q :=
  if 0 <? totalPredictions
  then jsdiv (Q_of_nat positivePredictions) (Q_of_nat totalPredictions)
  else Some 0%Q.

Definition truePositiveRateOf (truePositives falseNegatives : nat) : option Q :=
  if 0 <? truePositives + falseNegatives
  then jsdiv (Q_of_nat truePositives) (Q_of_nat (truePositives + falseNegatives))
  else Some 0%Q.

Definition falsePositiveRateOf (falsePositives trueNegatives : nat) : option Q :=
  if 0 <? falsePositives + trueNegatives
  then jsdiv (Q_of_nat falsePositives) (Q_of_nat (falsePositives + trueNegatives))
  else Some 0%Q.

Definition precisionOf (truePositives falsePositives : nat) : option Q :=
  if 0 <? truePositives + falsePositives
  then jsdiv (Q_of_nat truePositives) (Q_of_nat (truePositives + falsePositives))
  else Some 0%Q.

Definition f1ScoreOf (precision recall : Q) : option Q :=
  if Qgtb (precision + recall) 0
  then jsdiv (2 * precision * recall) (precision + recall)
  else Some 0%Q.

Definition averageConfidenceOf (predictions : list Prediction.t) : option Q :=
  jsdiv
    (fold_left (fun (sum : Q) p => (sum + Prediction.confidence p)%Q)
               predictions 0%Q)
    (Q_of_nat (List.length predictions)).

Definition accuracyAtConfidenceOf (totalPredictions correctPredictions : nat)
  : option Q :=
  if 0 <? totalPredictions
  then jsdiv (Q_of_nat correctPredictions) (Q_of_nat totalPredictions)
  else Some 0%Q.

(** [classification === groundTruthLabel], the right side nullable *)
Definition isCorrect (item : AnalysisWithPatient) : bool :=
  match Analysis.groundTruthLabel (analysis item) with
  | Some g => String.eqb (Analysis.classification (analysis item)) g
  | None => false
  end.

(** The body of the second loop: the metrics of one map entry. *)
Definition groupMetrics (entry : string * list AnalysisWithPatient)
  : option FairnessMetrics :=
  let '(fitzpatrickType, items) := entry in
  let predictions := map toPrediction items in
  let confusionMatrix := calculateConfusionMatrix predictions in
  let truePositives := ConfusionMatrix.truePositives confusionMatrix in
  let falsePositives := ConfusionMatrix.falsePositives confusionMatrix in
  let trueNegatives := ConfusionMatrix.trueNegatives confusionMatrix in
  let falseNegatives := ConfusionMatrix.falseNegatives confusionMatrix in
  let totalPredictions := List.length items in
  let positivePredictions :=
    List.length
      (filter (fun item => isPositivePrediction (Analysis.classification (analysis item)))
              items) in
  positiveRate <- positiveRateOf totalPredictions positivePredictions ;;
  truePositiveRate <- truePositiveRateOf truePositives falseNegatives ;;
  falsePositiveRate <- falsePositiveRateOf falsePositives trueNegatives ;;
  precision <- precisionOf truePositives falsePositives ;;
  let recall := truePositiveRate in
  f1Score <- f1ScoreOf precision recall ;;
  brierScore <- calculateBrierScore predictions ;;
  averageConfidence <- averageConfidenceOf predictions ;;
  let correctPredictions := List.length (filter isCorrect items) in
  accuracyAtConfidence <- accuracyAtConfidenceOf totalPredictions correctPredictions ;;
  Some {| fitzpatrickType := fitzpatrickType;
          totalPredictions := totalPredictions;
          positivePredictions := positivePredictions;
          truePositives := truePositives;
          falsePositives := falsePositives;
          trueNegatives := trueNegatives;
          falseNegatives := falseNegatives;
          positiveRate := positiveRate;
          truePositiveRate := truePositiveRate;
          falsePositiveRate := falsePositiveRate;
          precision := precision;
          recall := recall;
          f1Score := f1Score;
          brierScore := brierScore;
          averageConfidence := averageConfidence;
          accuracyAtConfidence := accuracyAtConfidence |}.

Definition groupByFitzpatrick (analysesWithPatients : list AnalysisWithPatient)
  : option (JsMap (list AnalysisWithPatient)) :=
  foldM groupStep analysesWithPatients [].

Definition calculateFairnessMetricsPerGroup
    (analysesWithPatients : list AnalysisWithPatient)
  : option (list FairnessMetrics) :=
  groupedByFitzpatrick <- groupByFitzpatrick analysesWithPatients ;;
  mapM groupMetrics groupedByFitzpatrick.

(** ** calculateDisparityMetrics *)

Definition calculateDisparityMetrics (metrics : list FairnessMetrics)
  : option DisparityMetrics :=
  if Nat.eqb (List.length metrics) 0 then
    Some {| overallDisparityScore := 0;
            demographicParityGap := 0;
            equalOpportunityGap := 0;
            calibrationGap := 0;
            parityAlert := false;
            opportunityAlert := false;
            calibrationAlert := false |}
  else
    let positiveRates := map positiveRate metrics in
    let truePositiveRates := map truePositiveRate metrics in
    let brierScores := map brierScore metrics in
    maxPositive <- Math_max positiveRates ;;
    minPositive <- Math_min positiveRates ;;
    let demographicParityGap := (maxPositive - minPositive)%Q in
    maxTrue <- Math_max truePositiveRates ;;
    minTrue <- Math_min truePositiveRates ;;
    let equalOpportunityGap := (maxTrue - minTrue)%Q in
    maxBrier <- Math_max brierScores ;;
    minBrier <- Math_min brierScores ;;
    let calibrationGap := (maxBrier - minBrier)%Q in
    let overallDisparityScore :=
      ((demographicParityGap + equalOpportunityGap + calibrationGap) / 3)%Q in
    let parityAlert := Qgtb demographicParityGap PARITY_THRESHOLD in
    let opportunityAlert := Qgtb equalOpportunityGap OPPORTUNITY_THRESHOLD in
    let calibrationAlert := Qgtb calibrationGap CALIBRATION_THRESHOLD in
    Some {| overallDisparityScore := overallDisparityScore;
            demographicParityGap := demographicParityGap;
            equalOpportunityGap := equalOpportunityGap;
            calibrationGap := calibrationGap;
            parityAlert := parityAlert;
            opportunityAlert := opportunityAlert;
            calibrationAlert := calibrationAlert |}.

(** ** Notions used to state the properties *)

Definition predictedPositive (p : Prediction.t) : bool :=
  isPositivePrediction (Prediction.classification p).

Definition actualPositive (p : Prediction.t) : bool :=
  isPositiveGroundTruth (Prediction.groundTruth p).

(** Number of elements of a list that satisfy a test. *)
Definition count {A : Type} (f : A -> bool) (l : list A) : nat :=
  List.length (filter f l).

(** Following the specification of the Brier score: the squared difference
    between the predicted probability [confidence / 100] and the outcome,
    1 when the classification is the ground truth and 0 otherwise, and the
    mean of these over the records. *)
Definition squaredError (p : Prediction.t) : Q :=
  let outcome : Q :=
    if string_dec (Prediction.classification p) (Prediction.groundTruth p)
    then 1%Q else 0%Q in
  ((Prediction.confidence p / 100 - outcome)
   * (Prediction.confidence p / 100 - outcome))%Q.

Fixpoint sumQ (l : list Q) : Q :=
  match l with
  | [] => 0%Q
  | x :: rest => (x + sumQ rest)%Q
  end.

Definition meanSquaredError (ps : list Prediction.t) : Q :=
  (sumQ (map squaredError ps) / Q_of_nat (List.length ps))%Q.

(** The largest and the smallest value of a list of numbers. *)
Definition isMaxOf (v : Q) (l : list Q) : Prop :=
  In v l /\ forall x, In x l -> (x <= v)%Q.

Definition isMinOf (v : Q) (l : list Q) : Prop :=
  In v l /\ forall x, In x l -> (v <= x)%Q.

(** A metrics record with its [positiveRate] replaced, every other field
    kept. *)
Definition withPositiveRate (m : FairnessMetrics) (rate : Q) : FairnessMetrics :=
  {| fitzpatrickType := fitzpatrickType m;
     totalPredictions := totalPredictions m;
     positivePredictions := positivePredictions m;
     truePositives := truePositives m;
     falsePositives := falsePositives m;
     trueNegatives := trueNegatives m;
     falseNegatives := falseNegatives m;
     positiveRate := rate;
     truePositiveRate := truePositiveRate m;
     falsePositiveRate := falsePositiveRate m;
     precision := precision m;
     recall := recall m;
     f1Score := f1Score m;
     brierScore := brierScore m;
     averageConfidence := averageConfidence m;
     accuracyAtConfidence := accuracyAtConfidence m |}.

(** Sample metrics records: group I with four records and one positive
    prediction, group II with two records and one positive prediction, and
    group II with four records and three positive predictions; every
    prediction is correct and fully confident. *)
Definition groupQuarter : FairnessMetrics :=
  {| fitzpatrickType := "I"; totalPredictions := 4; positivePredictions := 1;
     truePositives := 1; falsePositives := 0; trueNegatives := 3;
     falseNegatives := 0;
     positiveRate := 1 # 4; truePositiveRate := 1; falsePositiveRate := 0;
     precision := 1; recall := 1; f1Score := 1; brierScore := 0;
     averageConfidence := 100; accuracyAtConfidence := 1 |}.

Definition groupHalf : FairnessMetrics :=
  {| fitzpatrickType := "II"; totalPredictions := 2; positivePredictions := 1;
     truePositives := 1; falsePositives := 0; trueNegatives := 1;
     falseNegatives := 0;
     positiveRate := 1 # 2; truePositiveRate := 1; falsePositiveRate := 0;
     precision := 1; recall := 1; f1Score := 1; brierScore := 0;
     averageConfidence := 100; accuracyAtConfidence := 1 |}.

Definition groupThreeQuarters : FairnessMetrics :=
  {| fitzpatrickType := "II"; totalPredictions := 4; positivePredictions := 3;
     truePositives := 3; falsePositives := 0; trueNegatives := 1;
     falseNegatives := 0;
     positiveRate := 3 # 4; truePositiveRate := 1; falsePositiveRate := 0;
     precision := 1; recall := 1; f1Score := 1; brierScore := 0;
     averageConfidence := 100; accuracyAtConfidence := 1 |}.

(** A record takes part when its ground-truth label is truthy; its group is
    the patient's Fitzpatrick type, "Unknown" when that is falsy. *)
Definition qualifies (item : AnalysisWithPatient) : bool :=
  truthy (Analysis.groundTruthLabel (analysis item)).

Definition groupKey (item : AnalysisWithPatient) : string :=
  orDefault (Patient.fitzpatrickType (patient item)) "Unknown".

(** The records of group [k] among those that take part. *)
Definition inGroup (k : string) (item : AnalysisWithPatient) : bool :=
  qualifies item && String.eqb (groupKey item) k.

Definition sumNat (l : list nat) : nat := fold_right Nat.add 0 l.

Definition nonEmpty {A : Type} (l : list A) : option (list A) :=
  match l with
  | [] => None
  | _ :: _ => Some l
  end.

(** What the map of groups holds once the records [xs] have been read: its
    keys are distinct, and under each key it has the records of [xs] of that
    group, in their order, when there is at least one, and nothing
    otherwise. *)
Definition groupedInvariant (xs : list AnalysisWithPatient)
    (m : JsMap (list AnalysisWithPatient)) : Prop :=
  NoDup (map fst m)
  /\ forall k, Map_get m k = nonEmpty (filter (inGroup k) xs).

(** Sample records. *)
Definition record (classification : string) (groundTruthLabel : option string)
    (confidence : Z) (fitzpatrickType : option string) : AnalysisWithPatient :=
  {| analysis := Analysis.mk classification groundTruthLabel confidence;
     patient := Patient.mk fitzpatrickType |}.

(** Ten records of one group: six true positives, one false negative, two
    false positives and one true negative. *)
Definition tenRecords : list AnalysisWithPatient :=
  (repeat (record "Malignant" (Some "Malignant") 90 (Some "III")) 6
   ++ [record "Benign" (Some "Malignant") 70 (Some "III")]
   ++ repeat (record "Malignant" (Some "Benign") 60 (Some "III")) 2
   ++ [record "Benign" (Some "Benign") 80 (Some "III")])%list.

(** Six records: two without a usable label, two without a usable
    Fitzpatrick type. *)
Definition mixedRecords : list AnalysisWithPatient :=
  [ record "Malignant" (Some "Malignant") 90 (Some "II");
    record "Benign" (Some "Malignant") 60 None;
    record "Benign" None 60 (Some "II");
    record "Rash" (Some EmptyString) 60 (Some "II");
    record "Rash" (Some "Rash") 80 (Some EmptyString);
    record "Infection" (Some "Benign") 50 (Some "II") ].

(** ** The audit computation of the route /api/fairness/calculate (routes.ts) *)


(** The keys of a list in the order of their first occurrence. *)
Fixpoint firstOccurrences (l : list string) : list string :=
  match l with
  | [] => []
  | k :: rest =>
      k :: filter (fun k' => negb (String.eqb k' k)) (firstOccurrences rest)
  end.

(** A record whose Fitzpatrick type is missing, empty or the text
    "Unknown". *)
Definition unknownType (item : AnalysisWithPatient) : bool :=
  match Patient.fitzpatrickType (patient item) with
  | None => true
  | Some v => String.eqb v EmptyString || String.eqb v "Unknown"
  end.

(** ** Access tokens (token-utils.ts) *)

Module Token.

(** A token is a string of 8-bit characters; a JavaScript string holding any
    other code unit fails the format test at that place and is never
    generated. *)

Definition chars : string := "ABCDEFGHJKLMNPQRSTUVWXYZ23456789".
Definition segments : nat := 3.
Definition segmentLength : nat := 4.

(** [s[i]] appended to a string: the character at [i], or the text
    "undefined" when [i] is out of range. *)
Definition charAt (s : string) (i : nat) : string :=
  match String.get i s with
  | Some c => String c EmptyString
  | None => "undefined"
  end.

Definition byteValue (b : Byte.byte) : nat := N.to_nat (Byte.to_N b).

(** [randomBytes[j] % chars.length] *)
Definition randomIndex (b : Byte.byte) : nat :=
  byteValue b mod String.length chars.

(** The inner loop, over the buffer returned by [crypto.randomBytes(4)];
    [randomBytes j] is its byte at index [j]. *)
Definition generateSegment (randomBytes : nat -> Byte.byte) : string :=
  fold_left
    (fun (segment : string) (j : nat) =>
       segment ++ charAt chars (randomIndex (randomBytes j)))
    (seq 0 segmentLength) EmptyString.

(** [generateAccessToken()], the randomness made an argument: [random i] is
    the buffer returned by the call of [crypto.randomBytes] in turn [i] of
    the outer loop. *)
Definition generateAccessToken (random : nat -> nat -> Byte.byte) : string :=
  let tokenSegments :=
    fold_left
      (fun (tokenSegments : list string) (i : nat) =>
         (tokenSegments ++ [generateSegment (random i)])%list)
      (seq 0 segments) [] in
  String.concat "-" tokenSegments.

(** The regular expressions of the module: a sequence of items, each a
    literal character or a character class repeated a fixed number of times,
    anchored at both ends. *)
Inductive regexItem : Type :=
| Literal (c : ascii)
| ClassRepeat (ranges : list (ascii * ascii)) (n : nat).

Definition inRange (c : ascii) (range : ascii * ascii) : bool :=
  (nat_of_ascii (fst range) <=? nat_of_ascii c)
  && (nat_of_ascii c <=? nat_of_ascii (snd range)).

Definition inClass (ranges : list (ascii * ascii)) (c : ascii) : bool :=
  existsb (inRange c) ranges.

Fixpoint matchClass (ranges : list (ascii * ascii)) (n : nat) (s : string)
  : option string :=
  match n with
  | 0 => Some s
  | S n' =>
      match s with
      | String c rest =>
          if inClass ranges c then matchClass ranges n' rest else None
      | EmptyString => None
      end
  end.

(** What is left of [s] once the items have matched at its start. *)
Fixpoint matchItems (items : list regexItem) (s : string) : option string :=
  match items with
  | [] => Some s
  | Literal c :: rest =>
      match s with
      | String c' s' => if Ascii.eqb c' c then matchItems rest s' else None
      | EmptyString => None
      end
  | ClassRepeat ranges n :: rest =>
      match matchClass ranges n s with
      | Some s' => matchItems rest s'
      | None => None
      end
  end.

(** [/^items$/.test(s)] *)
Definition test (items : list regexItem) (s : string) : bool :=
  match matchItems items s with
  | Some EmptyString => true
  | _ => false
  end.

(** [[A-Z2-9]] *)
Definition tokenClass : list (ascii * ascii) :=
  [("A"%char, "Z"%char); ("2"%char, "9"%char)].

(** [/^[A-Z2-9]{4}-[A-Z2-9]{4}-[A-Z2-9]{4}$/] *)
Definition pattern : list regexItem :=
  [ClassRepeat tokenClass 4; Literal "-"; ClassRepeat tokenClass 4;
   Literal "-"; ClassRepeat tokenClass 4].

Definition isValidTokenFormat (token : string) : bool := test pattern token.

(** The 256 byte values. *)
Definition allBytes : list Byte.byte :=
  flat_map (fun n => match Byte.of_N (N.of_nat n) with
                     | Some b => [b]
                     | None => []
                     end) (seq 0 256).

(** The characters of a string. *)
Definition characters (s : string) : list ascii := list_ascii_of_string s.

(** The character of the alphabet at an index below its length. *)
Definition alphabetChar (i : nat) : ascii :=
  match String.get i chars with
  | Some c => c
  | None => "?"%char
  end.

(** The byte whose value is a number below 256. *)
Definition byteOfIndex (i : nat) : Byte.byte :=
  match Byte.of_N (N.of_nat i) with
  | Some b => b
  | None => x00
  end.

(** The characters the alphabet leaves out as easy to confuse. *)
Definition ambiguous : list ascii := ["0"%char; "O"%char; "1"%char; "I"%char].

(** The token made of three segments of four characters. *)
Definition tokenOf (a0 a1 a2 a3 b0 b1 b2 b3 c0 c1 c2 c3 : ascii) : string :=
  String a0 (String a1 (String a2 (String a3 (String "-"
  (String b0 (String b1 (String b2 (String b3 (String "-"
  (String c0 (String c1 (String c2 (String c3 EmptyString))))))))))))).

End Token.

(** ** Comparison of two analyses of a lesion (lesion-comparison.tsx) *)

Module LesionComparison.

Inductive Trend : Type := improved | worsened | no_change.

Record Improvement := {
  score : Q;
  trend : Trend;
  message : string
}.

(** The value of [severityMap[key]]: a number for the four own keys,
    [undefined] for a key the object does not have, and for the names of
    the properties of [Object.prototype] the value inherited from it, which
    is neither. *)
Inductive Severity : Type :=
| Own (n : nat)
| Undefined
| Inherited.

Definition objectPrototypeKeys : list string :=
  ["constructor"; "hasOwnProperty"; "isPrototypeOf"; "propertyIsEnumerable";
   "toLocaleString"; "toString"; "valueOf"; "__proto__";
   "__defineGetter__"; "__defineSetter__"; "__lookupGetter__";
   "__lookupSetter__"].

Definition severityMap (key : string) : Severity :=
  if String.eqb key "Benign" then Own 1
  else if String.eqb key "Rash" then Own 2
  else if String.eqb key "Infection" then Own 3
  else if String.eqb key "Malignant" then Own 4
  else if includes objectPrototypeKeys key then Inherited
  else Undefined.

Definition trendOf (score : Q) : Trend :=
  if Qgtb score 5 then improved
  else if Qgtb (-5) score then worsened
  else no_change.

(** [calculateImprovement].  The result is [None] where this model does not
    follow the code: when a classification names a property inherited from
    [Object.prototype] and neither severity is [undefined], the comparisons
    are made on values that are not numbers. *)
Definition calculateImprovement (analysis1 analysis2 : option Analysis.t)
  : option Improvement :=
  match analysis1, analysis2 with
  | Some analysis1, Some analysis2 =>
      let severity1 := severityMap (Analysis.classification analysis1) in
      let severity2 := severityMap (Analysis.classification analysis2) in
      match severity1, severity2 with
      | Undefined, _ | _, Undefined =>
          let confidenceDelta :=
            inject_Z (Analysis.confidence analysis2
                      - Analysis.confidence analysis1) in
          let normalizedScore := (confidenceDelta * (3 # 10))%Q in
          Some {| score := normalizedScore;
                  trend := trendOf normalizedScore;
                  message :=
                    if Qgtb normalizedScore 5
                    then "Confidence levels have improved"
                    else if Qgtb (-5) normalizedScore
                         then "Confidence levels have decreased"
                         else "Condition appears stable" |}
      | Own severity1, Own severity2 =>
          improvementScore <-
            (if severity2 <? severity1 then
               ratio <- jsdiv (Q_of_nat (severity1 - severity2))
                              (Q_of_nat severity1) ;;
               let severityImprovement := (ratio * 100)%Q in
               let confidenceBoost :=
                 (inject_Z (Analysis.confidence analysis2) / 100 * 20)%Q in
               Some (Qmin 100 (severityImprovement + confidenceBoost))
             else if severity1 <? severity2 then
               ratio <- jsdiv (Q_of_nat (severity2 - severity1))
                              (Q_of_nat severity1) ;;
               let severityDegradation := (ratio * 100)%Q in
               let confidenceBoost :=
                 (inject_Z (Analysis.confidence analysis2) / 100 * 20)%Q in
               Some (- Qmin 100 (severityDegradation + confidenceBoost))%Q
             else
               let confidenceDelta :=
                 inject_Z (Analysis.confidence analysis2
                           - Analysis.confidence analysis1) in
               Some (confidenceDelta * (5 # 10))%Q) ;;
          let trend := trendOf improvementScore in
          let message :=
            match trend with
            | improved => "Lesion showing signs of improvement"
            | worsened => "Lesion requires attention - condition has worsened"
            | no_change => "Lesion condition stable - no significant change"
            end in
          Some {| score := improvementScore; trend := trend;
                  message := message |}
      | _, _ => None
      end
  | _, _ =>
      Some {| score := 0; trend := no_change;
              message := "Insufficient data for comparison" |}
  end.

(** The score of the branch of two known severities. *)
Definition knownScore (n1 n2 : nat) (c1 c2 : Z) : Q :=
  if n2 <? n1 then
    Qmin 100 (Q_of_nat (n1 - n2) / Q_of_nat n1 * 100 + inject_Z c2 / 100 * 20)
  else if n1 <? n2 then
    - Qmin 100 (Q_of_nat (n2 - n1) / Q_of_nat n1 * 100 + inject_Z c2 / 100 * 20)
  else inject_Z (c2 - c1) * (5 # 10).

(** Sample analyses. *)
Definition malignant80 : Analysis.t := Analysis.mk "Malignant" None 80.
Definition benign90 : Analysis.t := Analysis.mk "Benign" None 90.
Definition benign70 : Analysis.t := Analysis.mk "Benign" None 70.

End LesionComparison.

(** ** Scores taken from the classifier's answer (gemini.ts, openai.ts) *)

(** [Math.round(x)]: the nearest integer, a tie going up. *)
Definition Math_round (x : Q) : Z := Qfloor (x + (1 # 2)).

(** [Math.max(0, Math.min(100, Math.round(v || 0)))], the expression that
    both clients apply to each score of the parsed answer; [v] is a JSON
    number, or [None] when the field is absent or null. *)
Definition clampScore (v : option Q) : Z :=
  let orZero := match v with Some q => q | None => 0%Q end in
  Z.max 0 (Z.min 100 (Math_round orZero)).

(** * Properties *)

(** ** The confusion matrix *)

Section ConfusionMatrixFacts.

Lemma count_cons {A : Type} (f : A -> bool) (x : A) (l : list A) :
  count f (x :: l) = (if f x then 1 else 0) + count f l.
Proof. unfold count; simpl; destruct (f x); reflexivity. Qed.

Lemma includes_positive (s : string) :
  includes POSITIVE_CLASSIFICATIONS s = true <->
  s = "Malignant" \/ s = "Infection".
Proof.
  unfold includes, POSITIVE_CLASSIFICATIONS; cbn [existsb].
  rewrite !orb_true_iff, !String.eqb_eq.
  split; [intros [E | [E | E]] | intros [E | E]];
    (discriminate || auto).
Qed.

(** The loop started from any counters adds, to each of them, the number
    of records of its cell of the truth table. *)
Lemma fold_confusionStep (l : list Prediction.t) :
  forall tp fp tn fn,
    fold_left confusionStep l (tp, fp, tn, fn) =
    (tp + count (fun p => predictedPositive p && actualPositive p) l,
     fp + count (fun p => predictedPositive p && negb (actualPositive p)) l,
     tn + count (fun p => negb (predictedPositive p) && negb (actualPositive p)) l,
     fn + count (fun p => negb (predictedPositive p) && actualPositive p) l).
Proof.
  induction l as [|p l IH]; intros tp fp tn fn.
  - unfold count; simpl. rewrite !Nat.add_0_r. reflexivity.
  - cbn [fold_left]. rewrite !count_cons.
    unfold confusionStep at 2.
    fold (predictedPositive p) (actualPositive p).
    destruct (predictedPositive p), (actualPositive p); cbn [andb negb];
      rewrite IH; cbn [Nat.add];
      repeat match goal with |- (_, _) = (_, _) => apply f_equal2 end; lia.
Qed.

Lemma truth_table_partition (l : list Prediction.t) :
  count (fun p => predictedPositive p && actualPositive p) l
  + count (fun p => predictedPositive p && negb (actualPositive p)) l
  + count (fun p => negb (predictedPositive p) && negb (actualPositive p)) l
  + count (fun p => negb (predictedPositive p) && actualPositive p) l
  = List.length l.
Proof.
  induction l as [|p l IH]; [reflexivity|].
  rewrite !count_cons. cbn [List.length].
  destruct (predictedPositive p), (actualPositive p); cbn [andb negb]; lia.
Qed.

Lemma calculateConfusionMatrix_counts (l : list Prediction.t) :
  calculateConfusionMatrix l =
  ConfusionMatrix.mk
    (count (fun p => predictedPositive p && actualPositive p) l)
    (count (fun p => predictedPositive p && negb (actualPositive p)) l)
    (count (fun p => negb (predictedPositive p) && negb (actualPositive p)) l)
    (count (fun p => negb (predictedPositive p) && actualPositive p) l).
Proof.
  unfold calculateConfusionMatrix. rewrite fold_confusionStep. reflexivity.
Qed.

End ConfusionMatrixFacts.

(** C4. [calculateConfusionMatrix] puts every record in exactly one of the
    four cells of the 2x2 truth table over membership of its classification
    and of its ground truth in the positive set {Malignant, Infection}: each
    counter is the number of records of its cell, the four counters add up to
    the number of records, a label is positive only when it is one of the two
    positive labels, and the empty input gives four zeros. *)
Theorem calculateConfusionMatrix_truth_table :
  forall predictions : list Prediction.t,
    let cm := calculateConfusionMatrix predictions in
    ConfusionMatrix.truePositives cm
      = count (fun p => predictedPositive p && actualPositive p) predictions
    /\ ConfusionMatrix.falsePositives cm
      = count (fun p => predictedPositive p && negb (actualPositive p)) predictions
    /\ ConfusionMatrix.trueNegatives cm
      = count (fun p => negb (predictedPositive p) && negb (actualPositive p)) predictions
    /\ ConfusionMatrix.falseNegatives cm
      = count (fun p => negb (predictedPositive p) && actualPositive p) predictions
    /\ ConfusionMatrix.truePositives cm + ConfusionMatrix.falsePositives cm
       + ConfusionMatrix.trueNegatives cm + ConfusionMatrix.falseNegatives cm
      = List.length predictions
    /\ (forall p, predictedPositive p = true <->
          Prediction.classification p = "Malignant"
          \/ Prediction.classification p = "Infection")
    /\ (forall p, actualPositive p = true <->
          Prediction.groundTruth p = "Malignant"
          \/ Prediction.groundTruth p = "Infection")
    /\ calculateConfusionMatrix [] = ConfusionMatrix.mk 0 0 0 0.
Proof.
  intros predictions cm. subst cm.
  rewrite calculateConfusionMatrix_counts. cbn [ConfusionMatrix.truePositives
    ConfusionMatrix.falsePositives ConfusionMatrix.trueNegatives
    ConfusionMatrix.falseNegatives].
  repeat split; try reflexivity.
  - apply truth_table_partition.
  - apply includes_positive.
  - apply includes_positive.
  - apply includes_positive.
  - apply includes_positive.
Qed.

(** ** Division *)

Lemma Q_of_nat_pos (n : nat) : 0 < n -> (0 < Q_of_nat n)%Q.
Proof.
  intros H. unfold Q_of_nat, Qlt; simpl. lia.
Qed.

Lemma Q_of_nat_S (n : nat) : (Q_of_nat (S n) == Q_of_nat n + 1)%Q.
Proof.
  unfold Q_of_nat. rewrite Nat2Z.inj_succ, <- Z.add_1_r, inject_Z_plus.
  reflexivity.
Qed.

Lemma jsdiv_0 (a : Q) : jsdiv a 0 = None.
Proof. reflexivity. Qed.

Lemma jsdiv_nonzero (a b : Q) : ~ (b == 0)%Q -> jsdiv a b = Some (a / b)%Q.
Proof.
  intros H. unfold jsdiv.
  destruct (Qeq_bool b 0) eqn:E; [|reflexivity].
  apply Qeq_bool_eq in E. contradiction.
Qed.

Lemma jsdiv_nat (a : Q) (n : nat) :
  0 < n -> jsdiv a (Q_of_nat n) = Some (a / Q_of_nat n)%Q.
Proof.
  intros H. apply jsdiv_nonzero. intros E.
  pose proof (Q_of_nat_pos n H) as P. rewrite E in P. discriminate P.
Qed.

(** ** The Brier score *)

Section BrierFacts.

Lemma brierStep_squaredError (acc : Q) (p : Prediction.t) :
  (brierStep acc p == acc + squaredError p)%Q.
Proof.
  unfold brierStep, squaredError.
  destruct (string_dec _ _) as [E | E].
  - apply String.eqb_eq in E. rewrite E. simpl Qpower. reflexivity.
  - apply String.eqb_neq in E. rewrite E. simpl Qpower. reflexivity.
Qed.

Lemma fold_brierStep (l : list Prediction.t) :
  forall acc : Q,
    (fold_left brierStep l acc == acc + sumQ (map squaredError l))%Q.
Proof.
  induction l as [|p l IH]; intros acc; cbn [fold_left map sumQ].
  - ring.
  - rewrite IH, brierStep_squaredError. ring.
Qed.

Lemma calculateBrierScore_cons (p : Prediction.t) (l : list Prediction.t) :
  calculateBrierScore (p :: l) =
  Some (fold_left brierStep (p :: l) 0 / Q_of_nat (List.length (p :: l)))%Q.
Proof.
  unfold calculateBrierScore. cbn [List.length Nat.eqb].
  apply jsdiv_nat. lia.
Qed.

Lemma squaredError_bounds (p : Prediction.t) :
  (0 <= Prediction.confidence p <= 100)%Q ->
  (0 <= squaredError p <= 1)%Q.
Proof.
  intros [Hlo Hhi]. unfold squaredError.
  assert (0 <= Prediction.confidence p / 100 <= 1)%Q as [Xlo Xhi].
  { split.
    - apply Qle_shift_div_l; [reflexivity|].
      rewrite Qmult_0_l. exact Hlo.
    - apply Qle_shift_div_r; [reflexivity|].
      rewrite Qmult_1_l. exact Hhi. }
  set (x := (Prediction.confidence p / 100)%Q) in *.
  destruct (string_dec _ _); cbv zeta; split; nra.
Qed.

Lemma sumQ_bounds (l : list Prediction.t) :
  (forall p, In p l -> (0 <= Prediction.confidence p <= 100)%Q) ->
  (0 <= sumQ (map squaredError l) <= Q_of_nat (List.length l))%Q.
Proof.
  induction l as [|p l IH]; intros H.
  - cbn. split; apply Qle_refl.
  - cbn [map sumQ List.length]. rewrite Q_of_nat_S.
    destruct (squaredError_bounds p (H p (or_introl eq_refl))) as [A B].
    destruct IH as [C D]; [intros q Hq; apply H; right; exact Hq|].
    split; lra.
Qed.

End BrierFacts.

(** C6. On a non-empty list [calculateBrierScore] returns the mean over the
    records of [(confidence / 100 - outcome)^2], the outcome being 1 when
    the classification equals the ground truth and 0 otherwise; on the empty
    list it returns 0. *)
Theorem calculateBrierScore_mean :
  (forall (p : Prediction.t) (rest : list Prediction.t),
      exists b : Q,
        calculateBrierScore (p :: rest) = Some b
        /\ (b == meanSquaredError (p :: rest))%Q)
  /\ calculateBrierScore [] = Some 0%Q.
Proof.
  split; [|reflexivity].
  intros p rest. eexists. split; [apply calculateBrierScore_cons|].
  unfold meanSquaredError. rewrite fold_brierStep. 
  apply Qmult_comp; [ring | reflexivity].
Qed.

(** C9. When every record has its confidence in [0, 100],
    [calculateBrierScore] returns a score between 0 and 1. *)
Theorem calculateBrierScore_bounds :
  forall predictions : list Prediction.t,
    (forall p, In p predictions -> (0 <= Prediction.confidence p <= 100)%Q) ->
    exists b : Q,
      calculateBrierScore predictions = Some b /\ (0 <= b <= 1)%Q.
Proof.
  intros [|p rest] H.
  - exists 0%Q. split; [reflexivity|]. split; [apply Qle_refl | discriminate].
  - eexists. split; [apply calculateBrierScore_cons|].
    destruct (sumQ_bounds (p :: rest) H) as [A B].
    assert (0 < Q_of_nat (List.length (p :: rest)))%Q as P
      by (apply Q_of_nat_pos; cbn; lia).
    rewrite fold_brierStep, Qplus_0_l.
    split.
    + apply Qle_shift_div_l; [exact P|]. rewrite Qmult_0_l. exact A.
    + apply Qle_shift_div_r; [exact P|]. rewrite Qmult_1_l. exact B.
Qed.

Lemma calculateBrierScore_bounds_witness :
  exists b : Q,
    calculateBrierScore
      [Prediction.mk "Malignant" "Malignant" 90; Prediction.mk "Benign" "Rash" 60]
    = Some b /\ (0 <= b <= 1)%Q.
Proof.
  apply calculateBrierScore_bounds.
  intros p [E | [E | []]]; subst p; unfold Qle; simpl; lia.
Defined.

(** ** Maximum, minimum and comparison *)

Section MinMaxFacts.

Lemma Qgtb_lt (a b : Q) : Qgtb a b = true <-> (b < a)%Q.
Proof.
  unfold Qgtb. rewrite negb_true_iff, <- not_true_iff_false, Qle_bool_iff.
  split; [apply Qnot_le_lt | apply Qlt_not_le].
Qed.

Lemma Qgtb_le (a b : Q) : Qgtb a b = false <-> (a <= b)%Q.
Proof.
  unfold Qgtb. rewrite negb_false_iff. apply Qle_bool_iff.
Qed.

Lemma Qmax_cases (x y : Q) : Qmax x y = x \/ Qmax x y = y.
Proof.
  unfold Qmax, GenericMinMax.gmax. destruct (x ?= y)%Q; auto.
Qed.

Lemma Qmin_cases (x y : Q) : Qmin x y = x \/ Qmin x y = y.
Proof.
  unfold Qmin, GenericMinMax.gmin. destruct (x ?= y)%Q; auto.
Qed.

Lemma fold_Qmax_In (rest : list Q) :
  forall x, In (fold_left Qmax rest x) (x :: rest).
Proof.
  induction rest as [|y rest IH]; intros x; cbn [fold_left].
  - left; reflexivity.
  - destruct (IH (Qmax x y)) as [E | H].
    + rewrite <- E. destruct (Qmax_cases x y) as [-> | ->];
        [left | right; left]; reflexivity.
    + right; right; exact H.
Qed.

Lemma fold_Qmin_In (rest : list Q) :
  forall x, In (fold_left Qmin rest x) (x :: rest).
Proof.
  induction rest as [|y rest IH]; intros x; cbn [fold_left].
  - left; reflexivity.
  - destruct (IH (Qmin x y)) as [E | H].
    + rewrite <- E. destruct (Qmin_cases x y) as [-> | ->];
        [left | right; left]; reflexivity.
    + right; right; exact H.
Qed.

Lemma fold_Qmax_upper (rest : list Q) :
  forall x y, In y (x :: rest) -> (y <= fold_left Qmax rest x)%Q.
Proof.
  induction rest as [|z rest IH]; intros x y H; cbn [fold_left].
  - destruct H as [<- | []]. apply Qle_refl.
  - destruct H as [<- | [<- | H]].
    + apply Qle_trans with (Qmax x z); [apply Q.le_max_l|].
      apply IH; left; reflexivity.
    + apply Qle_trans with (Qmax x z); [apply Q.le_max_r|].
      apply IH; left; reflexivity.
    + apply IH; right; exact H.
Qed.

Lemma fold_Qmin_lower (rest : list Q) :
  forall x y, In y (x :: rest) -> (fold_left Qmin rest x <= y)%Q.
Proof.
  induction rest as [|z rest IH]; intros x y H; cbn [fold_left].
  - destruct H as [<- | []]. apply Qle_refl.
  - destruct H as [<- | [<- | H]].
    + apply Qle_trans with (Qmin x z); [|apply Q.le_min_l].
      apply IH; left; reflexivity.
    + apply Qle_trans with (Qmin x z); [|apply Q.le_min_r].
      apply IH; left; reflexivity.
    + apply IH; right; exact H.
Qed.

Lemma Math_max_isMaxOf (x : Q) (rest : list Q) :
  exists hi, Math_max (x :: rest) = Some hi /\ isMaxOf hi (x :: rest).
Proof.
  eexists; split; [reflexivity|].
  split; [apply fold_Qmax_In | intros y; apply fold_Qmax_upper].
Qed.

Lemma Math_min_isMinOf (x : Q) (rest : list Q) :
  exists lo, Math_min (x :: rest) = Some lo /\ isMinOf lo (x :: rest).
Proof.
  eexists; split; [reflexivity|].
  split; [apply fold_Qmin_In | intros y; apply fold_Qmin_lower].
Qed.

End MinMaxFacts.

(** ** The disparity summary *)

Section DisparityFacts.

(** What the function computes once the list is known to be non-empty. *)
Lemma calculateDisparityMetrics_cons (m : FairnessMetrics)
    (rest : list FairnessMetrics) :
  let gap (f : FairnessMetrics -> Q) : Q :=
    (fold_left Qmax (map f rest) (f m) - fold_left Qmin (map f rest) (f m))%Q in
  calculateDisparityMetrics (m :: rest) =
  Some {| overallDisparityScore :=
            (gap positiveRate + gap truePositiveRate + gap brierScore) / 3;
          demographicParityGap := gap positiveRate;
          equalOpportunityGap := gap truePositiveRate;
          calibrationGap := gap brierScore;
          parityAlert := Qgtb (gap positiveRate) PARITY_THRESHOLD;
          opportunityAlert := Qgtb (gap truePositiveRate) OPPORTUNITY_THRESHOLD;
          calibrationAlert := Qgtb (gap brierScore) CALIBRATION_THRESHOLD |}%Q.
Proof. reflexivity. Qed.

Lemma gap_isMaxOf_isMinOf (f : FairnessMetrics -> Q) (m : FairnessMetrics)
    (rest : list FairnessMetrics) :
  exists hi lo : Q,
    isMaxOf hi (map f (m :: rest)) /\ isMinOf lo (map f (m :: rest))
    /\ (fold_left Qmax (map f rest) (f m) - fold_left Qmin (map f rest) (f m))%Q
       = (hi - lo)%Q.
Proof.
  do 2 eexists. cbn [map]. repeat split.
  - apply fold_Qmax_In.
  - intros y; apply fold_Qmax_upper.
  - apply fold_Qmin_In.
  - intros y; apply fold_Qmin_lower.
Qed.

End DisparityFacts.

(** C7. On the empty metrics list [calculateDisparityMetrics] returns a
    summary whose four numbers are 0 and whose three alerts are false. *)
Theorem calculateDisparityMetrics_empty :
  calculateDisparityMetrics [] =
  Some {| overallDisparityScore := 0;
          demographicParityGap := 0;
          equalOpportunityGap := 0;
          calibrationGap := 0;
          parityAlert := false;
          opportunityAlert := false;
          calibrationAlert := false |}.
Proof. reflexivity. Qed.

(** C3. On a non-empty metrics list the three gaps are the largest minus
    the smallest [positiveRate], [truePositiveRate] and [brierScore] of the
    groups, and the overall score is the sum of the three gaps divided by 3;
    on a list of one group the three gaps and the overall score are 0 and the
    three alerts are false. *)
Theorem calculateDisparityMetrics_gaps :
  (forall (m : FairnessMetrics) (rest : list FairnessMetrics),
      let metrics := m :: rest in
      exists d : DisparityMetrics,
        calculateDisparityMetrics metrics = Some d
        /\ (exists hi lo : Q,
               isMaxOf hi (map positiveRate metrics)
               /\ isMinOf lo (map positiveRate metrics)
               /\ demographicParityGap d = (hi - lo)%Q)
        /\ (exists hi lo : Q,
               isMaxOf hi (map truePositiveRate metrics)
               /\ isMinOf lo (map truePositiveRate metrics)
               /\ equalOpportunityGap d = (hi - lo)%Q)
        /\ (exists hi lo : Q,
               isMaxOf hi (map brierScore metrics)
               /\ isMinOf lo (map brierScore metrics)
               /\ calibrationGap d = (hi - lo)%Q)
        /\ overallDisparityScore d
           = ((demographicParityGap d + equalOpportunityGap d + calibrationGap d)
              / 3)%Q)
  /\ (forall m : FairnessMetrics,
         exists d : DisparityMetrics,
           calculateDisparityMetrics [m] = Some d
           /\ (demographicParityGap d == 0)%Q
           /\ (equalOpportunityGap d == 0)%Q
           /\ (calibrationGap d == 0)%Q
           /\ (overallDisparityScore d == 0)%Q
           /\ parityAlert d = false
           /\ opportunityAlert d = false
           /\ calibrationAlert d = false).
Proof.
  split.
  - intros m rest metrics. subst metrics.
    eexists. split; [apply calculateDisparityMetrics_cons|].
    cbn [demographicParityGap equalOpportunityGap calibrationGap
         overallDisparityScore].
    repeat split; try apply gap_isMaxOf_isMinOf.
  - intros m. eexists. split; [apply calculateDisparityMetrics_cons|].
    cbn [demographicParityGap equalOpportunityGap calibrationGap
         overallDisparityScore parityAlert opportunityAlert calibrationAlert
         map fold_left].
    assert (forall x : Q, (x - x == 0)%Q) as Z by (intros x; ring).
    repeat split; try apply Z.
    + rewrite !Z. reflexivity.
    + apply Qgtb_le. rewrite Z. discriminate.
    + apply Qgtb_le. rewrite Z. discriminate.
    + apply Qgtb_le. rewrite Z. discriminate.
Qed.

(** C2. In the summary returned for any metrics list, [parityAlert] is true
    exactly when [demographicParityGap] is above 0.15, [opportunityAlert]
    exactly when [equalOpportunityGap] is above 0.15 and [calibrationAlert]
    exactly when [calibrationGap] is above 0.10; a gap equal to its threshold
    leaves its alert false. *)
Theorem calculateDisparityMetrics_alerts :
  forall metrics : list FairnessMetrics,
    exists d : DisparityMetrics,
      calculateDisparityMetrics metrics = Some d
      /\ (parityAlert d = true <-> (15 # 100 < demographicParityGap d)%Q)
      /\ (opportunityAlert d = true <-> (15 # 100 < equalOpportunityGap d)%Q)
      /\ (calibrationAlert d = true <-> (10 # 100 < calibrationGap d)%Q)
      /\ ((demographicParityGap d == 15 # 100)%Q -> parityAlert d = false)
      /\ ((equalOpportunityGap d == 15 # 100)%Q -> opportunityAlert d = false)
      /\ ((calibrationGap d == 10 # 100)%Q -> calibrationAlert d = false).
Proof.
  intros [|m rest].
  - eexists. split; [reflexivity|].
    cbn [demographicParityGap equalOpportunityGap calibrationGap
         parityAlert opportunityAlert calibrationAlert].
    repeat split; try discriminate; try reflexivity.
  - eexists. split; [apply calculateDisparityMetrics_cons|].
    cbn [demographicParityGap equalOpportunityGap calibrationGap
         parityAlert opportunityAlert calibrationAlert].
    repeat split; try (apply Qgtb_lt);
      intros E; apply Qgtb_le; rewrite E; discriminate.
Qed.

(** C1, as stated, fails: with group I at 1/4 and group II at 1/2 the gap
    is 1/4; raising the [positiveRate] of group I to 3/8, nothing else
    changed, lowers the gap to 1/8. *)
Lemma demographicParityGap_not_monotone :
  ~ (forall (a b : FairnessMetrics) (rate : Q) (d d' : DisparityMetrics),
        (positiveRate a <= rate)%Q ->
        calculateDisparityMetrics [a; b] = Some d ->
        calculateDisparityMetrics [withPositiveRate a rate; b] = Some d' ->
        (demographicParityGap d <= demographicParityGap d')%Q).
Proof.
  intros claim.
  specialize (claim groupQuarter groupHalf (3 # 8)%Q _ _
                (ltac:(discriminate)) eq_refl eq_refl).
  revert claim. vm_compute. intros H. apply H. reflexivity.
Qed.

(** C1, amended.  For a two-group input, raising the [positiveRate] of a
    group whose rate is not below the other group's, the other group
    unchanged, never lowers [demographicParityGap]; this holds whichever of
    the two places the raised group has in the list. *)
Theorem demographicParityGap_monotone_above :
  forall a a' b : FairnessMetrics,
    (positiveRate b <= positiveRate a)%Q ->
    (positiveRate a <= positiveRate a')%Q ->
    (exists d d' : DisparityMetrics,
        calculateDisparityMetrics [a; b] = Some d
        /\ calculateDisparityMetrics [a'; b] = Some d'
        /\ (demographicParityGap d <= demographicParityGap d')%Q)
    /\ (exists d d' : DisparityMetrics,
           calculateDisparityMetrics [b; a] = Some d
           /\ calculateDisparityMetrics [b; a'] = Some d'
           /\ (demographicParityGap d <= demographicParityGap d')%Q).
Proof.
  intros a a' b Hba Haa'.
  assert (positiveRate b <= positiveRate a')%Q as Hba'
    by (eapply Qle_trans; eassumption).
  split; do 2 eexists;
    (split; [apply calculateDisparityMetrics_cons|]);
    (split; [apply calculateDisparityMetrics_cons|]);
    cbn [demographicParityGap map fold_left].
  - rewrite (Q.max_l _ _ Hba), (Q.max_l _ _ Hba'),
      (Q.min_r _ _ Hba), (Q.min_r _ _ Hba'). lra.
  - rewrite (Q.max_r _ _ Hba), (Q.max_r _ _ Hba'),
      (Q.min_l _ _ Hba), (Q.min_l _ _ Hba'). lra.
Qed.

Lemma demographicParityGap_monotone_above_witness :
  (exists d d' : DisparityMetrics,
      calculateDisparityMetrics [groupHalf; groupQuarter] = Some d
      /\ calculateDisparityMetrics [groupThreeQuarters; groupQuarter] = Some d'
      /\ (demographicParityGap d <= demographicParityGap d')%Q)
  /\ (exists d d' : DisparityMetrics,
         calculateDisparityMetrics [groupQuarter; groupHalf] = Some d
         /\ calculateDisparityMetrics [groupQuarter; groupThreeQuarters] = Some d'
         /\ (demographicParityGap d <= demographicParityGap d')%Q).
Proof.
  apply (demographicParityGap_monotone_above
           groupHalf groupThreeQuarters groupQuarter);
    unfold Qle; simpl; lia.
Defined.

(** ** The map of groups *)

Section JsMapFacts.

Context {V : Type}.
Implicit Types (m : JsMap V) (k : string) (v : V).

Lemma Map_get_set m k v k' :
  Map_get (Map_set m k v) k' =
  if String.eqb k k' then Some v else Map_get m k'.
Proof.
  induction m as [|[k0 v0] m IH]; cbn [Map_set Map_get].
  - destruct (String.eqb_spec k k'); reflexivity.
  - destruct (String.eqb_spec k0 k) as [E0 | N0]; cbn [Map_get].
    + subst k0. destruct (String.eqb_spec k k'); reflexivity.
    + destruct (String.eqb_spec k0 k') as [E1 | N1].
      * subst k0. destruct (String.eqb_spec k k'); [congruence | reflexivity].
      * exact IH.
Qed.

Lemma Map_has_get m k :
  Map_has m k = match Map_get m k with Some _ => true | None => false end.
Proof.
  induction m as [|[k0 v0] m IH]; cbn [Map_has Map_get]; [reflexivity|].
  destruct (String.eqb k0 k); [reflexivity | exact IH].
Qed.

Lemma Map_has_keys m k : Map_has m k = true <-> In k (map fst m).
Proof.
  induction m as [|[k0 v0] m IH]; cbn [Map_has map fst In].
  - split; [discriminate | contradiction].
  - destruct (String.eqb_spec k0 k) as [E | N].
    + split; auto.
    + rewrite IH. split; [auto | intros [E | H]; [contradiction | exact H]].
Qed.

Lemma Map_set_keys m k v :
  map fst (Map_set m k v) =
  if Map_has m k then map fst m else (map fst m ++ [k])%list.
Proof.
  induction m as [|[k0 v0] m IH]; cbn [Map_set Map_has map fst]; [reflexivity|].
  destruct (String.eqb k0 k); cbn [map fst]; [reflexivity|].
  rewrite IH. destruct (Map_has m k); reflexivity.
Qed.

Lemma Map_get_In m k v :
  NoDup (map fst m) -> In (k, v) m -> Map_get m k = Some v.
Proof.
  induction m as [|[k0 v0] m IH]; cbn [map fst In Map_get]; [contradiction|].
  intros ND [E | H].
  - inversion E; subst. rewrite String.eqb_refl. reflexivity.
  - inversion ND as [|? ? Hnotin ND']; subst.
    destruct (String.eqb_spec k0 k) as [E | N].
    + subst k0. exfalso. apply Hnotin.
      change k with (fst (k, v)). apply in_map. exact H.
    + apply IH; assumption.
Qed.

End JsMapFacts.

(** ** The error monad *)

Section MonadFacts.

Lemma foldM_snoc {A S : Type} (step : S -> A -> option S) (xs : list A)
    (x : A) :
  forall s, foldM step (xs ++ [x]) s = (s' <- foldM step xs s ;; step s' x).
Proof.
  induction xs as [|y xs IH]; intros s; cbn [app foldM bind].
  - destruct (step s x); reflexivity.
  - destruct (step s y) as [s'|]; cbn [bind]; [apply IH | reflexivity].
Qed.

Lemma mapM_total {A B : Type} (f : A -> option B) (xs : list A) :
  (forall x, In x xs -> exists y, f x = Some y) ->
  exists ys, mapM f xs = Some ys /\ Forall2 (fun x y => f x = Some y) xs ys.
Proof.
  induction xs as [|x xs IH]; intros H; cbn [mapM].
  - exists []. split; [reflexivity | constructor].
  - destruct (H x (or_introl eq_refl)) as [y Ey].
    destruct IH as [ys [E F]]; [intros z Hz; apply H; right; exact Hz|].
    exists (y :: ys). rewrite Ey, E. split; [reflexivity|].
    constructor; assumption.
Qed.

End MonadFacts.

(** ** Grouping by Fitzpatrick type *)

Section GroupingFacts.

Implicit Types (xs items : list AnalysisWithPatient)
               (x item : AnalysisWithPatient)
               (m : JsMap (list AnalysisWithPatient)) (k : string).

Lemma nonEmpty_snoc {A : Type} (l : list A) (a : A) :
  nonEmpty (l ++ [a]) = Some (l ++ [a])%list.
Proof. destruct l; reflexivity. Qed.

Lemma nonEmpty_Some {A : Type} (l l' : list A) :
  nonEmpty l = Some l' -> l = l' /\ l' <> [].
Proof.
  destruct l; cbn; [discriminate|].
  intros E; inversion E; subst. split; [reflexivity | discriminate].
Qed.

Lemma nonEmpty_None {A : Type} (l : list A) : nonEmpty l = None -> l = [].
Proof. destruct l; cbn; [reflexivity | discriminate]. Qed.

Lemma filter_snoc {A : Type} (f : A -> bool) (l : list A) (a : A) :
  filter f (l ++ [a]) = (filter f l ++ (if f a then [a] else []))%list.
Proof. rewrite filter_app. cbn [filter]. destruct (f a); reflexivity. Qed.

Lemma inGroup_groupKey x : qualifies x = true -> inGroup (groupKey x) x = true.
Proof.
  intros Q. unfold inGroup. rewrite Q, String.eqb_refl. reflexivity.
Qed.

Lemma inGroup_other x k : groupKey x <> k -> inGroup k x = false.
Proof.
  intros N. unfold inGroup. apply String.eqb_neq in N. rewrite N.
  apply andb_false_r.
Qed.

Lemma inGroup_unqualified x k : qualifies x = false -> inGroup k x = false.
Proof. intros Q. unfold inGroup. rewrite Q. reflexivity. Qed.

Lemma groupedInvariant_nil : groupedInvariant [] [].
Proof. split; [constructor | reflexivity]. Qed.

(** One turn of the loop never fails and keeps the invariant. *)
Lemma groupStep_invariant xs m x :
  groupedInvariant xs m ->
  exists m', groupStep m x = Some m' /\ groupedInvariant (xs ++ [x]) m'.
Proof.
  intros [ND G]. unfold groupStep.
  fold (qualifies x) (groupKey x).
  destruct (qualifies x) eqn:Q; cbn [negb].
  2:{ exists m. split; [reflexivity|]. split; [exact ND|].
      intros k. rewrite filter_snoc, (inGroup_unqualified x k Q), app_nil_r.
      apply G. }
  set (kx := groupKey x).
  destruct (Map_has m kx) eqn:H; cbn [negb].
  - pose proof (Map_has_get m kx) as HG. rewrite H in HG.
    destruct (Map_get m kx) as [items|] eqn:E; [|discriminate].
    cbn [bind]. eexists. split; [reflexivity|].
    pose proof (G kx) as Gk. rewrite E in Gk. symmetry in Gk.
    apply nonEmpty_Some in Gk. destruct Gk as [Ei _].
    split.
    + rewrite Map_set_keys, H. exact ND.
    + intros k. rewrite Map_get_set, filter_snoc.
      destruct (String.eqb_spec kx k) as [Ek | Nk].
      * subst k. unfold kx at 2. rewrite (inGroup_groupKey x Q), Ei.
        symmetry. apply nonEmpty_snoc.
      * rewrite (inGroup_other x k Nk), app_nil_r. apply G.
  - pose proof (Map_has_get m kx) as HG. rewrite H in HG.
    destruct (Map_get m kx) as [items|] eqn:E; [discriminate|].
    rewrite Map_get_set, String.eqb_refl. cbn [bind app].
    eexists. split; [reflexivity|].
    pose proof (G kx) as Gk. rewrite E in Gk. symmetry in Gk.
    apply nonEmpty_None in Gk.
    assert (Map_has (Map_set m kx []) kx = true) as H'
      by (rewrite Map_has_get, Map_get_set, String.eqb_refl; reflexivity).
    split.
    + rewrite Map_set_keys, H', Map_set_keys, H.
      apply NoDup_app; [exact ND | repeat constructor; intros [] |].
      intros a Ha [<- | []].
      apply Map_has_keys in Ha. congruence.
    + intros k. rewrite !Map_get_set, filter_snoc.
      destruct (String.eqb_spec kx k) as [Ek | Nk].
      * subst k. unfold kx at 2. rewrite (inGroup_groupKey x Q), Gk.
        reflexivity.
      * rewrite (inGroup_other x k Nk), app_nil_r. apply G.
Qed.

(** The first loop never fails and ends with the groups of its input. *)
Lemma groupByFitzpatrick_invariant xs :
  exists m, groupByFitzpatrick xs = Some m /\ groupedInvariant xs m.
Proof.
  unfold groupByFitzpatrick.
  induction xs as [|x xs [m [E I]]] using rev_ind.
  - exists []. split; [reflexivity | apply groupedInvariant_nil].
  - rewrite foldM_snoc, E. cbn [bind]. apply groupStep_invariant. exact I.
Qed.

(** Records without a ground-truth label leave no trace in the map. *)
Lemma foldM_groupStep_filter xs :
  forall m, foldM groupStep (filter qualifies xs) m = foldM groupStep xs m.
Proof.
  induction xs as [|x xs IH]; intros m; [reflexivity|].
  cbn [filter]. destruct (qualifies x) eqn:Q; cbn [foldM].
  - destruct (groupStep m x); cbn [bind]; [apply IH | reflexivity].
  - unfold groupStep at 2. fold (qualifies x). rewrite Q. cbn [negb bind].
    apply IH.
Qed.

Lemma groupedInvariant_entry xs m k items :
  groupedInvariant xs m -> In (k, items) m ->
  items = filter (inGroup k) xs /\ items <> [].
Proof.
  intros [ND G] H. apply (Map_get_In m k items ND) in H.
  rewrite G in H. apply nonEmpty_Some in H. destruct H as [E N].
  split; [symmetry; exact E | exact N].
Qed.

Lemma groupedInvariant_key xs m x :
  groupedInvariant xs m -> In x xs -> qualifies x = true ->
  In (groupKey x) (map fst m).
Proof.
  intros [ND G] Hx Q. apply Map_has_keys. rewrite Map_has_get, G.
  assert (In x (filter (inGroup (groupKey x)) xs)) as Hf
    by (apply filter_In; split; [exact Hx | apply inGroup_groupKey; exact Q]).
  destruct (filter (inGroup (groupKey x)) xs); [contradiction | reflexivity].
Qed.

End GroupingFacts.

(** ** The metrics of one group *)

Section GroupMetricsFacts.

Lemma positiveRateOf_pos (n pp : nat) :
  0 < n -> positiveRateOf n pp = Some (Q_of_nat pp / Q_of_nat n)%Q.
Proof.
  intros H. unfold positiveRateOf.
  rewrite (proj2 (Nat.ltb_lt 0 n) H). apply jsdiv_nat. exact H.
Qed.

Lemma accuracyAtConfidenceOf_pos (n c : nat) :
  0 < n -> accuracyAtConfidenceOf n c = Some (Q_of_nat c / Q_of_nat n)%Q.
Proof. apply positiveRateOf_pos. Qed.

(** A guarded quotient of two counters: its value is a number, and it is
    0 when the denominator is 0. *)
Lemma guarded_quotient (a b : nat) :
  exists q : Q,
    (if 0 <? b then jsdiv (Q_of_nat a) (Q_of_nat b) else Some 0%Q) = Some q
    /\ (b = 0 -> q = 0%Q).
Proof.
  destruct (0 <? b) eqn:E.
  - apply Nat.ltb_lt in E. eexists. split; [apply jsdiv_nat; exact E | lia].
  - exists 0%Q. split; reflexivity.
Qed.

Lemma truePositiveRateOf_total (tp fn : nat) :
  exists q : Q, truePositiveRateOf tp fn = Some q /\ (tp + fn = 0 -> q = 0%Q).
Proof. apply guarded_quotient. Qed.

Lemma falsePositiveRateOf_total (fp tn : nat) :
  exists q : Q, falsePositiveRateOf fp tn = Some q /\ (fp + tn = 0 -> q = 0%Q).
Proof. apply guarded_quotient. Qed.

Lemma precisionOf_total (tp fp : nat) :
  exists q : Q, precisionOf tp fp = Some q /\ (tp + fp = 0 -> q = 0%Q).
Proof. apply guarded_quotient. Qed.

Lemma f1ScoreOf_total (p r : Q) :
  exists q : Q, f1ScoreOf p r = Some q /\ ((p + r == 0)%Q -> q = 0%Q).
Proof.
  unfold f1ScoreOf. destruct (Qgtb (p + r) 0) eqn:E.
  - apply Qgtb_lt in E. eexists. split.
    + apply jsdiv_nonzero. intros Z. rewrite Z in E. discriminate E.
    + intros Z. rewrite Z in E. discriminate E.
  - exists 0%Q. split; reflexivity.
Qed.

Lemma averageConfidenceOf_cons (p : Prediction.t) (l : list Prediction.t) :
  exists q : Q, averageConfidenceOf (p :: l) = Some q.
Proof.
  eexists. unfold averageConfidenceOf. apply jsdiv_nat. cbn; lia.
Qed.

(** The one quotient without a guard fails on an empty group. *)
Lemma averageConfidenceOf_nil : averageConfidenceOf [] = None.
Proof. reflexivity. Qed.

(** On a non-empty group the loop body yields a record, with these
    fields. *)
Lemma groupMetrics_nonempty (k : string) (items : list AnalysisWithPatient) :
  items <> [] ->
  exists r : FairnessMetrics,
    groupMetrics (k, items) = Some r
    /\ fitzpatrickType r = k
    /\ totalPredictions r = List.length items
    /\ positivePredictions r
       = count (fun item => isPositivePrediction
                              (Analysis.classification (analysis item))) items
    /\ ConfusionMatrix.mk (truePositives r) (falsePositives r)
                          (trueNegatives r) (falseNegatives r)
       = calculateConfusionMatrix (map toPrediction items)
    /\ positiveRate r
       = (Q_of_nat (positivePredictions r) / Q_of_nat (totalPredictions r))%Q
    /\ (truePositives r + falseNegatives r = 0 -> truePositiveRate r = 0%Q)
    /\ (falsePositives r + trueNegatives r = 0 -> falsePositiveRate r = 0%Q)
    /\ (truePositives r + falsePositives r = 0 -> precision r = 0%Q)
    /\ ((precision r + recall r == 0)%Q -> f1Score r = 0%Q)
    /\ calculateBrierScore (map toPrediction items) = Some (brierScore r).
Proof.
  intros N. destruct items as [|i rest]; [contradiction|].
  unfold groupMetrics.
  set (items := i :: rest).
  set (cm := calculateConfusionMatrix (map toPrediction items)).
  assert (0 < List.length items) as L by (cbn; lia).
  rewrite (positiveRateOf_pos _ _ L), (accuracyAtConfidenceOf_pos _ _ L).
  destruct (truePositiveRateOf_total (ConfusionMatrix.truePositives cm)
              (ConfusionMatrix.falseNegatives cm)) as [tpr [-> Htpr]].
  destruct (falsePositiveRateOf_total (ConfusionMatrix.falsePositives cm)
              (ConfusionMatrix.trueNegatives cm)) as [fpr [-> Hfpr]].
  destruct (precisionOf_total (ConfusionMatrix.truePositives cm)
              (ConfusionMatrix.falsePositives cm)) as [prec [-> Hprec]].
  cbn [bind].
  destruct (f1ScoreOf_total prec tpr) as [f1 [-> Hf1]].
  destruct (averageConfidenceOf_cons (toPrediction i) (map toPrediction rest))
    as [avg Eavg].
  change (map toPrediction items)
    with (toPrediction i :: map toPrediction rest) in *.
  rewrite calculateBrierScore_cons, Eavg. cbn [bind].
  eexists. split; [reflexivity|].
  cbn [fitzpatrickType totalPredictions positivePredictions truePositives
       falsePositives trueNegatives falseNegatives positiveRate
       truePositiveRate falsePositiveRate precision recall f1Score brierScore].
  repeat match goal with |- _ /\ _ => split end;
    try reflexivity; try assumption.
  destruct cm; reflexivity.
Qed.

End GroupMetricsFacts.

(** ** The metrics of all groups *)

Section PerGroupFacts.

Implicit Types (xs items : list AnalysisWithPatient)
               (m : JsMap (list AnalysisWithPatient))
               (ms : list FairnessMetrics) (r : FairnessMetrics).

Lemma Forall2_In_right {A B : Type} (P : A -> B -> Prop)
    (l : list A) (l' : list B) :
  Forall2 P l l' -> forall y, In y l' -> exists x, In x l /\ P x y.
Proof.
  induction 1 as [|x y l l' H _ IH]; intros z Hz; [contradiction|].
  destruct Hz as [<- | Hz].
  - exists x. split; [left; reflexivity | exact H].
  - destruct (IH z Hz) as [x' [Hx' Px']]. exists x'. split; [right|]; assumption.
Qed.

Lemma Forall2_map_eq {A B C : Type} (P : A -> B -> Prop)
    (f : A -> C) (g : B -> C) (l : list A) (l' : list B) :
  Forall2 P l l' -> (forall x y, In x l -> P x y -> f x = g y) ->
  map f l = map g l'.
Proof.
  induction 1 as [|x y l l' H _ IH]; intros E; [reflexivity|].
  cbn [map]. rewrite (E x y (or_introl eq_refl) H), IH; [reflexivity|].
  intros x' y' Hx'. apply E. right; exact Hx'.
Qed.

(** The function never fails; its result is the loop body applied to the
    entries of a map that satisfies the grouping invariant. *)
Lemma calculateFairnessMetricsPerGroup_groups xs :
  exists m ms,
    groupedInvariant xs m
    /\ calculateFairnessMetricsPerGroup xs = Some ms
    /\ Forall2 (fun e r => groupMetrics e = Some r) m ms.
Proof.
  destruct (groupByFitzpatrick_invariant xs) as [m [E I]].
  destruct (mapM_total groupMetrics m) as [ms [Ems F]].
  { intros [k items] H.
    destruct (groupedInvariant_entry xs m k items I H) as [_ N].
    destruct (groupMetrics_nonempty k items N) as [r [Er _]].
    exists r. exact Er. }
  exists m, ms. split; [exact I|]. split; [|exact F].
  unfold calculateFairnessMetricsPerGroup. rewrite E. exact Ems.
Qed.

Lemma calculateFairnessMetricsPerGroup_filter xs :
  calculateFairnessMetricsPerGroup (filter qualifies xs)
  = calculateFairnessMetricsPerGroup xs.
Proof.
  unfold calculateFairnessMetricsPerGroup, groupByFitzpatrick.
  rewrite foldM_groupStep_filter. reflexivity.
Qed.

Lemma count_map {A B : Type} (f : B -> bool) (g : A -> B) (l : list A) :
  count f (map g l) = count (fun a => f (g a)) l.
Proof.
  induction l as [|a l IH]; [reflexivity|].
  cbn [map]. rewrite !count_cons, IH. reflexivity.
Qed.

Lemma count_split {A : Type} (f g : A -> bool) (l : list A) :
  count f l
  = count (fun a => f a && g a) l + count (fun a => f a && negb (g a)) l.
Proof.
  induction l as [|a l IH]; [reflexivity|].
  rewrite !count_cons, IH. destruct (f a), (g a); cbn [andb negb]; lia.
Qed.

Lemma sumNat_map_add {A : Type} (f g : A -> nat) (l : list A) :
  sumNat (map (fun a => f a + g a) l) = sumNat (map f l) + sumNat (map g l).
Proof.
  induction l as [|a l IH]; [reflexivity|].
  unfold sumNat in *. cbn [map fold_right]. rewrite IH. lia.
Qed.

(** Among distinct keys at most one is the key of a given record. *)
Lemma sumNat_inGroup (ks : list string) (x : AnalysisWithPatient) :
  NoDup ks ->
  sumNat (map (fun k => if inGroup k x then 1 else 0) ks)
  = if qualifies x && existsb (String.eqb (groupKey x)) ks then 1 else 0.
Proof.
  induction 1 as [|k ks Hnotin ND IH]; cbn [map sumNat fold_right existsb].
  - rewrite andb_false_r. reflexivity.
  - fold (sumNat (map (fun k => if inGroup k x then 1 else 0) ks)).
    rewrite IH. unfold inGroup.
    destruct (qualifies x); cbn [andb]; [|reflexivity].
    destruct (String.eqb_spec (groupKey x) k) as [E | N]; cbn [orb]; [|reflexivity].
    destruct (existsb (String.eqb (groupKey x)) ks) eqn:Ex; [|reflexivity].
    exfalso. apply existsb_exists in Ex. destruct Ex as [k' [Hk' E']].
    apply String.eqb_eq in E'. subst. contradiction.
Qed.

(** The sizes of the groups of distinct keys that cover every record that
    takes part add up to the number of such records. *)
Lemma sumNat_groups (ks : list string) xs :
  NoDup ks ->
  (forall x, In x xs -> qualifies x = true -> In (groupKey x) ks) ->
  sumNat (map (fun k => count (inGroup k) xs) ks) = count qualifies xs.
Proof.
  intros ND. induction xs as [|x xs IH]; intros C.
  - unfold count, sumNat; cbn [filter List.length]. clear.
    induction ks as [|k ks IHk]; [reflexivity | exact IHk].
  - rewrite count_cons.
    rewrite (map_ext _ (fun k => (if inGroup k x then 1 else 0)
                                   + count (inGroup k) xs))
      by (intros k; apply count_cons).
    rewrite sumNat_map_add, IH, (sumNat_inGroup ks x ND).
    2:{ intros y Hy. apply C. right; exact Hy. }
    destruct (qualifies x) eqn:Q; cbn [andb]; [|reflexivity].
    assert (existsb (String.eqb (groupKey x)) ks = true) as ->; [|reflexivity].
    apply existsb_exists. exists (groupKey x).
    split; [apply C; [left; reflexivity | exact Q] | apply String.eqb_refl].
Qed.

(** A record of the result comes from an entry of the map. *)
Lemma metrics_entry xs m ms r :
  groupedInvariant xs m ->
  Forall2 (fun e r => groupMetrics e = Some r) m ms ->
  In r ms ->
  exists items,
    items = filter (inGroup (fitzpatrickType r)) xs
    /\ items <> []
    /\ groupMetrics (fitzpatrickType r, items) = Some r.
Proof.
  intros I F H.
  destruct (Forall2_In_right _ _ _ F r H) as [[k items] [He Er]].
  destruct (groupedInvariant_entry xs m k items I He) as [Ei N].
  destruct (groupMetrics_nonempty k items N) as [r' [Er' [Ek _]]].
  rewrite Er in Er'. inversion Er'; subst r'. subst k.
  exists items. repeat split; assumption.
Qed.

Lemma metrics_keys xs m ms :
  Forall2 (fun e r => groupMetrics e = Some r) m ms ->
  groupedInvariant xs m ->
  map fst m = map fitzpatrickType ms.
Proof.
  intros F I. apply (Forall2_map_eq _ _ _ _ _ F).
  intros [k items] r He Er.
  destruct (groupedInvariant_entry xs m k items I He) as [_ N].
  destruct (groupMetrics_nonempty k items N) as [r' [Er' [Ek _]]].
  rewrite Er in Er'. inversion Er'; subst r'. symmetry. exact Ek.
Qed.

End PerGroupFacts.

(** C5. [calculateFairnessMetricsPerGroup] ignores the records whose
    ground-truth label is missing or empty: it returns the same list as on
    the input without them.  The output has one record per group key, the
    keys distinct; a record that takes part has its group in the output, the
    group "Unknown" when its Fitzpatrick type is missing; the
    [totalPredictions] of a group is the number of records that take part and
    have its key, which is at least 1; and the [totalPredictions] of all
    groups add up to the number of records that take part. *)
Theorem calculateFairnessMetricsPerGroup_grouping :
  forall analysesWithPatients : list AnalysisWithPatient,
    exists metrics : list FairnessMetrics,
      calculateFairnessMetricsPerGroup analysesWithPatients = Some metrics
      /\ calculateFairnessMetricsPerGroup (filter qualifies analysesWithPatients)
         = Some metrics
      /\ (forall item,
             qualifies item = false <->
             Analysis.groundTruthLabel (analysis item) = None
             \/ Analysis.groundTruthLabel (analysis item) = Some EmptyString)
      /\ NoDup (map fitzpatrickType metrics)
      /\ (forall item,
             In item analysesWithPatients -> qualifies item = true ->
             exists r, In r metrics
                       /\ fitzpatrickType r = groupKey item
                       /\ (Patient.fitzpatrickType (patient item) = None ->
                           fitzpatrickType r = "Unknown"))
      /\ (forall r,
             In r metrics ->
             totalPredictions r
             = count (fun item => qualifies item
                                  && String.eqb (groupKey item) (fitzpatrickType r))
                     analysesWithPatients
             /\ 1 <= totalPredictions r)
      /\ sumNat (map totalPredictions metrics)
         = count qualifies analysesWithPatients.
Proof.
  intros xs.
  destruct (calculateFairnessMetricsPerGroup_groups xs) as [m [ms [I [E F]]]].
  pose proof (metrics_keys xs m ms F I) as K.
  assert (forall r, In r ms ->
            totalPredictions r = count (inGroup (fitzpatrickType r)) xs
            /\ 1 <= totalPredictions r) as T.
  { intros r Hr.
    destruct (metrics_entry xs m ms r I F Hr) as [items [Ei [N Er]]].
    destruct (groupMetrics_nonempty (fitzpatrickType r) items N) as [r' [Er' [_ [Et _]]]].
    rewrite Er in Er'. inversion Er'; subst r'.
    rewrite Et. split; [rewrite Ei; reflexivity|].
    destruct items; [contradiction | cbn; lia]. }
  exists ms. repeat match goal with |- _ /\ _ => split end.
  - exact E.
  - rewrite calculateFairnessMetricsPerGroup_filter. exact E.
  - intros item. unfold qualifies, truthy.
    destruct (Analysis.groundTruthLabel (analysis item)) as [g|].
    + rewrite negb_false_iff, String.eqb_eq.
      split; [intros ->; right; reflexivity|].
      intros [H | H]; [discriminate | inversion H; reflexivity].
    + split; [left|]; reflexivity.
  - rewrite <- K. apply I.
  - intros item Hin Q.
    pose proof (groupedInvariant_key xs m item I Hin Q) as Hk.
    rewrite K in Hk. apply in_map_iff in Hk. destruct Hk as [r [Er Hr]].
    exists r. repeat split; [exact Hr | exact Er |].
    intros Hnone. rewrite Er. unfold groupKey. rewrite Hnone. reflexivity.
  - exact T.
  - rewrite <- (sumNat_groups (map fitzpatrickType ms) xs).
    + rewrite map_map. f_equal. apply map_ext_in. intros r Hr. apply T, Hr.
    + rewrite <- K. apply I.
    + intros x Hx Q. rewrite <- K.
      exact (groupedInvariant_key xs m x I Hx Q).
Qed.

(** C10. In every record returned by [calculateFairnessMetricsPerGroup],
    [positivePredictions] is [truePositives + falsePositives], so that
    [positiveRate] is [(truePositives + falsePositives) / totalPredictions]. *)
Theorem positivePredictions_truePositives_falsePositives :
  forall analysesWithPatients : list AnalysisWithPatient,
    exists metrics : list FairnessMetrics,
      calculateFairnessMetricsPerGroup analysesWithPatients = Some metrics
      /\ forall r,
           In r metrics ->
           positivePredictions r = truePositives r + falsePositives r
           /\ positiveRate r
              = (Q_of_nat (truePositives r + falsePositives r)
                 / Q_of_nat (totalPredictions r))%Q.
Proof.
  intros xs.
  destruct (calculateFairnessMetricsPerGroup_groups xs) as [m [ms [I [E F]]]].
  exists ms. split; [exact E|]. intros r Hr.
  destruct (metrics_entry xs m ms r I F Hr) as [items [_ [N Er]]].
  destruct (groupMetrics_nonempty (fitzpatrickType r) items N)
    as [r' [Er' [_ [_ [Epp [Ecm [Epr _]]]]]]].
  rewrite Er in Er'. inversion Er'; subst r'.
  assert (positivePredictions r = truePositives r + falsePositives r) as P.
  { rewrite calculateConfusionMatrix_counts in Ecm.
    injection Ecm as Etp Efp Etn Efn.
    rewrite Epp, Etp, Efp, !count_map.
    apply (count_split (fun a => predictedPositive (toPrediction a))
                       (fun a => actualPositive (toPrediction a))). }
  split; [exact P|]. rewrite Epr, P. reflexivity.
Qed.

(** C8. A metric whose denominator is zero is exactly 0, and no metric is
    ever a failed division: this holds of each guarded quotient of the loop
    body ([positiveRate] and [accuracyAtConfidence] at [n = 0],
    [truePositiveRate] at [tp + fn = 0], [falsePositiveRate] at
    [fp + tn = 0], [precision] at [tp + fp = 0], [f1Score] at
    [precision + recall = 0]), of the Brier score of no record, and of the
    whole function, which returns a list of records on every input, each
    with these rates at 0 when their denominator is 0. *)
Theorem zero_denominator_safety :
  (forall positivePredictions : nat, positiveRateOf 0 positivePredictions = Some 0%Q)
  /\ (forall tp fn : nat, tp + fn = 0 -> truePositiveRateOf tp fn = Some 0%Q)
  /\ (forall fp tn : nat, fp + tn = 0 -> falsePositiveRateOf fp tn = Some 0%Q)
  /\ (forall tp fp : nat, tp + fp = 0 -> precisionOf tp fp = Some 0%Q)
  /\ (forall precision recall : Q,
         (precision + recall == 0)%Q -> f1ScoreOf precision recall = Some 0%Q)
  /\ (forall correctPredictions : nat,
         accuracyAtConfidenceOf 0 correctPredictions = Some 0%Q)
  /\ calculateBrierScore [] = Some 0%Q
  /\ (forall analysesWithPatients : list AnalysisWithPatient,
         exists metrics : list FairnessMetrics,
           calculateFairnessMetricsPerGroup analysesWithPatients = Some metrics
           /\ forall r,
                In r metrics ->
                (truePositives r + falseNegatives r = 0 -> truePositiveRate r = 0%Q)
                /\ (falsePositives r + trueNegatives r = 0 ->
                    falsePositiveRate r = 0%Q)
                /\ (truePositives r + falsePositives r = 0 -> precision r = 0%Q)
                /\ ((precision r + recall r == 0)%Q -> f1Score r = 0%Q)).
Proof.
  repeat match goal with |- _ /\ _ => split end; try reflexivity.
  - intros tp fn H. destruct (truePositiveRateOf_total tp fn) as [q [E Z]].
    rewrite E, (Z H). reflexivity.
  - intros fp tn H. destruct (falsePositiveRateOf_total fp tn) as [q [E Z]].
    rewrite E, (Z H). reflexivity.
  - intros tp fp H. destruct (precisionOf_total tp fp) as [q [E Z]].
    rewrite E, (Z H). reflexivity.
  - intros p r H. destruct (f1ScoreOf_total p r) as [q [E Z]].
    rewrite E, (Z H). reflexivity.
  - intros xs.
    destruct (calculateFairnessMetricsPerGroup_groups xs) as [m [ms [I [E F]]]].
    exists ms. split; [exact E|]. intros r Hr.
    destruct (metrics_entry xs m ms r I F Hr) as [items [_ [N Er]]].
    destruct (groupMetrics_nonempty (fitzpatrickType r) items N)
      as [r' [Er' [_ [_ [_ [_ [_ [Ht [Hf [Hp [Hf1 _]]]]]]]]]]].
    rewrite Er in Er'. inversion Er'; subst r'.
    repeat split; assumption.
Qed.

Lemma zero_denominator_safety_witness :
  positiveRateOf 0 3 = Some 0%Q
  /\ truePositiveRateOf 0 0 = Some 0%Q
  /\ falsePositiveRateOf 0 0 = Some 0%Q
  /\ precisionOf 0 0 = Some 0%Q
  /\ f1ScoreOf 0 0 = Some 0%Q
  /\ accuracyAtConfidenceOf 0 2 = Some 0%Q
  /\ calculateBrierScore [] = Some 0%Q.
Proof.
  destruct zero_denominator_safety as [A [B [C [D [E [F [G _]]]]]]].
  exact (conj (A 3)
          (conj (B 0 0 eq_refl)
             (conj (C 0 0 eq_refl)
                (conj (D 0 0 eq_refl)
                   (conj (E 0%Q 0%Q (Qeq_refl 0))
                      (conj (F 2) G)))))).
Defined.

(** ** Worked examples *)

(** Ten records with tp = 6, fn = 1, fp = 2, tn = 1: precision 3/4, recall
    6/7 and F1 4/5. *)
Example tenRecords_metrics :
  exists r : FairnessMetrics,
    calculateFairnessMetricsPerGroup tenRecords = Some [r]
    /\ fitzpatrickType r = "III"
    /\ (totalPredictions r, positivePredictions r) = (10, 8)
    /\ (truePositives r, falsePositives r, trueNegatives r, falseNegatives r)
       = (6, 2, 1, 1)
    /\ (precision r == 3 # 4)%Q
    /\ (recall r == 6 # 7)%Q
    /\ (f1Score r == 4 # 5)%Q
    /\ (accuracyAtConfidence r == 7 # 10)%Q.
Proof.
  eexists. split; [vm_compute; reflexivity|].
  repeat split.
Qed.

(** Records without a label are skipped and a missing or empty Fitzpatrick
    type goes to "Unknown"; the groups come out in the order of their first
    record. *)
Example mixedRecords_groups :
  option_map (map (fun r => (fitzpatrickType r, totalPredictions r)))
             (calculateFairnessMetricsPerGroup mixedRecords)
  = Some [("II", 2); ("Unknown", 2)].
Proof. vm_compute. reflexivity. Qed.

(** Two groups with positive rates 0.40 and 0.10 and nothing else apart: the
    parity gap is 0.30, its alert is raised, and the overall score is
    0.10. *)
Example two_groups_disparity :
  exists d : DisparityMetrics,
    calculateDisparityMetrics
      [withPositiveRate groupQuarter (40 # 100);
       withPositiveRate groupHalf (10 # 100)] = Some d
    /\ (demographicParityGap d == 30 # 100)%Q
    /\ (equalOpportunityGap d == 0)%Q
    /\ (calibrationGap d == 0)%Q
    /\ (overallDisparityScore d == 10 # 100)%Q
    /\ (parityAlert d, opportunityAlert d, calibrationAlert d)
       = (true, false, false).
Proof.
  eexists. split; [vm_compute; reflexivity|].
  repeat split.
Qed.

(** A parity gap of exactly 0.15 raises no alert. *)
Example gap_at_threshold :
  option_map (fun d => (demographicParityGap d, parityAlert d))
    (calculateDisparityMetrics
       [withPositiveRate groupQuarter (25 # 100);
        withPositiveRate groupHalf (10 # 100)])
  = Some (((25 # 100) - (10 # 100))%Q, false).
Proof. vm_compute. reflexivity. Qed.

(** * Further properties of the fairness engine *)

(** ** The fields of a group's record *)

Section GroupRecordFacts.

(** Whatever record the loop body returns, its fields come from these
    computations. *)
Lemma groupMetrics_inv (k : string) (items : list AnalysisWithPatient)
    (r : FairnessMetrics) :
  groupMetrics (k, items) = Some r ->
  fitzpatrickType r = k
  /\ totalPredictions r = List.length items
  /\ positivePredictions r
     = count (fun item => isPositivePrediction
                            (Analysis.classification (analysis item))) items
  /\ ConfusionMatrix.mk (truePositives r) (falsePositives r)
                        (trueNegatives r) (falseNegatives r)
     = calculateConfusionMatrix (map toPrediction items)
  /\ positiveRateOf (totalPredictions r) (positivePredictions r)
     = Some (positiveRate r)
  /\ truePositiveRateOf (truePositives r) (falseNegatives r)
     = Some (truePositiveRate r)
  /\ falsePositiveRateOf (falsePositives r) (trueNegatives r)
     = Some (falsePositiveRate r)
  /\ precisionOf (truePositives r) (falsePositives r) = Some (precision r)
  /\ recall r = truePositiveRate r
  /\ f1ScoreOf (precision r) (recall r) = Some (f1Score r)
  /\ calculateBrierScore (map toPrediction items) = Some (brierScore r)
  /\ averageConfidenceOf (map toPrediction items) = Some (averageConfidence r)
  /\ accuracyAtConfidenceOf (totalPredictions r) (count isCorrect items)
     = Some (accuracyAtConfidence r).
Proof.
  unfold groupMetrics.
  set (cm := calculateConfusionMatrix (map toPrediction items)).
  destruct (positiveRateOf _ _) as [pr|] eqn:Epr; [|discriminate].
  destruct (truePositiveRateOf _ _) as [tpr|] eqn:Etpr; [|discriminate].
  destruct (falsePositiveRateOf _ _) as [fpr|] eqn:Efpr; [|discriminate].
  destruct (precisionOf _ _) as [prec|] eqn:Eprec; [|discriminate].
  cbn [bind].
  destruct (f1ScoreOf _ _) as [f1|] eqn:Ef1; [|discriminate].
  destruct (calculateBrierScore _) as [bs|] eqn:Ebs; [|discriminate].
  destruct (averageConfidenceOf _) as [avg|] eqn:Eavg; [|discriminate].
  cbn [bind].
  destruct (accuracyAtConfidenceOf _ _) as [acc|] eqn:Eacc; [|discriminate].
  cbn [bind]. intros E. inversion E; subst r; clear E.
  cbn [fitzpatrickType totalPredictions positivePredictions truePositives
       falsePositives trueNegatives falseNegatives positiveRate
       truePositiveRate falsePositiveRate precision recall f1Score brierScore
       averageConfidence accuracyAtConfidence].
  repeat match goal with |- _ /\ _ => split end;
    try reflexivity; try assumption.
  destruct cm; reflexivity.
Qed.


Lemma Q_of_nat_le (a b : nat) : a <= b -> (Q_of_nat a <= Q_of_nat b)%Q.
Proof.
  intros H. unfold Q_of_nat. rewrite <- Zle_Qle. lia.
Qed.

Lemma Q_of_nat_nonneg (a : nat) : (0 <= Q_of_nat a)%Q.
Proof. apply (Q_of_nat_le 0 a). lia. Qed.

(** A guarded quotient of a counter by a counter that is no smaller lies
    between 0 and 1. *)
Lemma guarded_quotient_bounds (a b : nat) (q : Q) :
  (if 0 <? b then jsdiv (Q_of_nat a) (Q_of_nat b) else Some 0%Q) = Some q ->
  a <= b -> (0 <= q <= 1)%Q.
Proof.
  intros E L. destruct (0 <? b) eqn:B.
  - apply Nat.ltb_lt in B. rewrite (jsdiv_nat _ _ B) in E.
    inversion E; subst q; clear E.
    pose proof (Q_of_nat_pos b B) as P. split.
    + apply Qle_shift_div_l; [exact P|]. rewrite Qmult_0_l.
      apply Q_of_nat_nonneg.
    + apply Qle_shift_div_r; [exact P|]. rewrite Qmult_1_l.
      apply Q_of_nat_le. exact L.
  - inversion E; subst q. split; [apply Qle_refl | discriminate].
Qed.

Lemma f1ScoreOf_bounds (p r f : Q) :
  f1ScoreOf p r = Some f ->
  (0 <= p <= 1)%Q -> (0 <= r <= 1)%Q -> (0 <= f <= 1)%Q.
Proof.
  unfold f1ScoreOf. intros E [P0 P1] [R0 R1].
  destruct (Qgtb (p + r) 0) eqn:G.
  - apply Qgtb_lt in G. rewrite jsdiv_nonzero in E by lra.
    inversion E; subst f; clear E. split.
    + apply Qle_shift_div_l; [exact G|]. nra.
    + apply Qle_shift_div_r; [exact G|]. nra.
  - inversion E; subst f. split; [apply Qle_refl | discriminate].
Qed.

Lemma count_le_length {A : Type} (f : A -> bool) (l : list A) :
  count f l <= List.length l.
Proof. unfold count. apply filter_length_le. Qed.

End GroupRecordFacts.

(** ** The order of the groups *)

Section GroupOrderFacts.

Lemma firstOccurrences_snoc (l : list string) (k : string) :
  firstOccurrences (l ++ [k]) =
  if existsb (String.eqb k) l then firstOccurrences l
  else (firstOccurrences l ++ [k])%list.
Proof.
  induction l as [|a l IH]; cbn [app firstOccurrences existsb]; [reflexivity|].
  rewrite IH. destruct (String.eqb_spec k a) as [E | N]; cbn [orb].
  - subst a. destruct (existsb (String.eqb k) l); [reflexivity|].
    rewrite filter_app. cbn [filter]. rewrite String.eqb_refl. cbn [negb].
    rewrite app_nil_r. reflexivity.
  - destruct (existsb (String.eqb k) l); [reflexivity|].
    rewrite filter_app. cbn [filter].
    apply String.eqb_neq in N. rewrite N. reflexivity.
Qed.

Lemma firstOccurrences_In (l : list string) (k : string) :
  In k (firstOccurrences l) <-> In k l.
Proof.
  induction l as [|a l IH]; cbn [firstOccurrences In]; [reflexivity|].
  rewrite filter_In, IH, negb_true_iff, String.eqb_neq.
  destruct (string_dec a k) as [E | N]; [tauto|].
  split; [tauto|]. intros [E | H]; [tauto|]. right. split; [exact H|congruence].
Qed.

Lemma existsb_eqb_In (l : list string) (k : string) :
  existsb (String.eqb k) l = true <-> In k l.
Proof.
  rewrite existsb_exists. split.
  - intros [y [H E]]. apply String.eqb_eq in E. subst y. exact H.
  - intros H. exists k. split; [exact H | apply String.eqb_refl].
Qed.

(** The keys of the map after one turn of the loop. *)
Lemma groupStep_keys (m m' : JsMap (list AnalysisWithPatient))
    (x : AnalysisWithPatient) :
  groupStep m x = Some m' ->
  map fst m' =
  if qualifies x
  then if Map_has m (groupKey x) then map fst m
       else (map fst m ++ [groupKey x])%list
  else map fst m.
Proof.
  unfold groupStep. fold (qualifies x) (groupKey x).
  destruct (qualifies x); cbn [negb]; [|intros E; inversion E; reflexivity].
  destruct (Map_has m (groupKey x)) eqn:H; cbn [negb].
  - destruct (Map_get m (groupKey x)); cbn [bind]; [|discriminate].
    intros E; inversion E. rewrite Map_set_keys, H. reflexivity.
  - rewrite Map_get_set, String.eqb_refl. cbn [bind].
    intros E; inversion E.
    rewrite Map_set_keys, Map_has_get, Map_get_set, String.eqb_refl.
    rewrite Map_set_keys, H. reflexivity.
Qed.

Lemma groupByFitzpatrick_keys (xs : list AnalysisWithPatient) :
  forall m, groupByFitzpatrick xs = Some m ->
            map fst m = firstOccurrences (map groupKey (filter qualifies xs)).
Proof.
  unfold groupByFitzpatrick.
  induction xs as [|x xs IH] using rev_ind; intros m E.
  - inversion E. reflexivity.
  - rewrite foldM_snoc in E.
    destruct (foldM groupStep xs []) as [m0|] eqn:E0; [|discriminate].
    cbn [bind] in E. rewrite (groupStep_keys m0 m x E), (IH m0 eq_refl).
    rewrite filter_snoc. destruct (qualifies x); [|rewrite app_nil_r; reflexivity].
    rewrite map_app. cbn [map]. rewrite firstOccurrences_snoc.
    destruct (Map_has m0 (groupKey x)) eqn:H.
    + apply (proj1 (Map_has_keys _ _)) in H. rewrite (IH m0 eq_refl) in H.
      apply (proj1 (firstOccurrences_In _ _)) in H.
      apply (proj2 (existsb_eqb_In _ _)) in H. rewrite H. reflexivity.
    + destruct (existsb _ _) eqn:Ex; [|reflexivity].
      apply (proj1 (existsb_eqb_In _ _)) in Ex.
      apply (proj2 (firstOccurrences_In _ _)) in Ex.
      rewrite <- (IH m0 eq_refl) in Ex.
      apply (proj2 (Map_has_keys _ _)) in Ex. congruence.
Qed.

(** The function returns a list of records, one per key in the order of
    first occurrence, each the loop body applied to the records of its
    group, of which there is at least one. *)
Lemma calculateFairnessMetricsPerGroup_records
    (xs : list AnalysisWithPatient) :
  exists ms : list FairnessMetrics,
    calculateFairnessMetricsPerGroup xs = Some ms
    /\ map fitzpatrickType ms
       = firstOccurrences (map groupKey (filter qualifies xs))
    /\ forall r, In r ms ->
         exists items,
           items = filter (inGroup (fitzpatrickType r)) xs
           /\ items <> []
           /\ groupMetrics (fitzpatrickType r, items) = Some r.
Proof.
  destruct (groupByFitzpatrick_invariant xs) as [m [Em I]].
  destruct (mapM_total groupMetrics m) as [ms [Ems F]].
  { intros [k items] H.
    destruct (groupedInvariant_entry xs m k items I H) as [_ N].
    destruct (groupMetrics_nonempty k items N) as [r [Er _]].
    exists r. exact Er. }
  exists ms. split; [|split].
  - unfold calculateFairnessMetricsPerGroup. rewrite Em. exact Ems.
  - rewrite <- (metrics_keys xs m ms F I). apply groupByFitzpatrick_keys, Em.
  - intros r Hr. apply (metrics_entry xs m ms r I F Hr).
Qed.

End GroupOrderFacts.

(** ** Bounds on the fields of a group's record *)

Section GroupBoundFacts.

Lemma groupMetrics_rate_bounds (k : string) (items : list AnalysisWithPatient)
    (r : FairnessMetrics) :
  groupMetrics (k, items) = Some r ->
  (0 <= positiveRate r <= 1)%Q
  /\ (0 <= truePositiveRate r <= 1)%Q
  /\ (0 <= falsePositiveRate r <= 1)%Q
  /\ (0 <= precision r <= 1)%Q
  /\ (0 <= recall r <= 1)%Q
  /\ (0 <= f1Score r <= 1)%Q
  /\ (0 <= accuracyAtConfidence r <= 1)%Q
  /\ recall r = truePositiveRate r.
Proof.
  intros Er.
  destruct (groupMetrics_inv _ _ _ Er)
    as [_ [Et [Epp [_ [Epr [Etpr [Efpr [Eprec [Erec [Ef1 [_ [_ Eacc]]]]]]]]]]]].
  assert (0 <= positiveRate r <= 1)%Q as Bpr.
  { apply (guarded_quotient_bounds _ _ _ Epr).
    rewrite Epp, Et. apply count_le_length. }
  assert (0 <= truePositiveRate r <= 1)%Q as Btpr
    by (apply (guarded_quotient_bounds _ _ _ Etpr); lia).
  assert (0 <= falsePositiveRate r <= 1)%Q as Bfpr
    by (apply (guarded_quotient_bounds _ _ _ Efpr); lia).
  assert (0 <= precision r <= 1)%Q as Bprec
    by (apply (guarded_quotient_bounds _ _ _ Eprec); lia).
  assert (0 <= recall r <= 1)%Q as Brec by (rewrite Erec; exact Btpr).
  assert (0 <= accuracyAtConfidence r <= 1)%Q as Bacc.
  { apply (guarded_quotient_bounds _ _ _ Eacc).
    rewrite Et. apply count_le_length. }
  pose proof (f1ScoreOf_bounds _ _ _ Ef1 Bprec Brec) as Bf1.
  repeat match goal with |- _ /\ _ => split end;
    try apply Bpr; try apply Btpr; try apply Bfpr; try apply Bprec;
    try apply Brec; try apply Bf1; try apply Bacc; exact Erec.
Qed.






End GroupBoundFacts.

(** ** Properties of the records of the groups *)

(** X1. The groups come out in the order in which their first labelled
    record occurs in the input. *)
Theorem groups_in_order_of_first_record :
  forall analysesWithPatients : list AnalysisWithPatient,
    exists metrics : list FairnessMetrics,
      calculateFairnessMetricsPerGroup analysesWithPatients = Some metrics
      /\ map fitzpatrickType metrics
         = firstOccurrences
             (map groupKey (filter qualifies analysesWithPatients)).
Proof.
  intros xs.
  destruct (calculateFairnessMetricsPerGroup_records xs) as [ms [E [K _]]].
  exists ms. split; assumption.
Qed.

(** X2. The result is the empty list exactly when no record of the input
    has a usable ground-truth label. *)
Theorem no_group_iff_no_labelled_record :
  forall analysesWithPatients : list AnalysisWithPatient,
    calculateFairnessMetricsPerGroup analysesWithPatients = Some []
    <-> (forall item, In item analysesWithPatients -> qualifies item = false).
Proof.
  intros xs. split.
  - intros E0 x Hx.
    destruct (calculateFairnessMetricsPerGroup_records xs) as [ms [E [K _]]].
    rewrite E0 in E. inversion E; subst ms. cbn [map] in K.
    destruct (qualifies x) eqn:Q; [|reflexivity].
    assert (In (groupKey x) (map groupKey (filter qualifies xs))) as H
      by (apply in_map, filter_In; split; assumption).
    apply (proj2 (firstOccurrences_In _ _)) in H. rewrite <- K in H.
    contradiction.
  - intros H. rewrite <- calculateFairnessMetricsPerGroup_filter.
    assert (filter qualifies xs = []) as ->; [|reflexivity].
    induction xs as [|x xs IH]; [reflexivity|]. cbn [filter].
    rewrite (H x (or_introl eq_refl)). apply IH.
    intros y Hy. apply H. right; exact Hy.
Qed.

(** X3. In every record of the result the four confusion counters add up to
    [totalPredictions], and [positivePredictions] is at most
    [totalPredictions]. *)
Theorem group_counters_partition :
  forall analysesWithPatients : list AnalysisWithPatient,
    exists metrics : list FairnessMetrics,
      calculateFairnessMetricsPerGroup analysesWithPatients = Some metrics
      /\ forall r,
           In r metrics ->
           truePositives r + falsePositives r + trueNegatives r
           + falseNegatives r = totalPredictions r
           /\ positivePredictions r <= totalPredictions r.
Proof.
  intros xs.
  destruct (calculateFairnessMetricsPerGroup_records xs) as [ms [E [_ R]]].
  exists ms. split; [exact E|]. intros r Hr.
  destruct (R r Hr) as [items [_ [_ Er]]].
  destruct (groupMetrics_inv _ _ _ Er) as [_ [Et [Epp [Ecm _]]]].
  rewrite calculateConfusionMatrix_counts in Ecm.
  injection Ecm as Etp Efp Etn Efn.
  split.
  - rewrite Etp, Efp, Etn, Efn, truth_table_partition, length_map.
    symmetry. exact Et.
  - rewrite Epp, Et. apply count_le_length.
Qed.

(** X4. In every record of the result, [positiveRate], [truePositiveRate],
    [falsePositiveRate], [precision], [recall], [f1Score] and
    [accuracyAtConfidence] lie between 0 and 1, and [recall] is
    [truePositiveRate]. *)
Theorem group_rates_between_0_and_1 :
  forall analysesWithPatients : list AnalysisWithPatient,
    exists metrics : list FairnessMetrics,
      calculateFairnessMetricsPerGroup analysesWithPatients = Some metrics
      /\ forall r,
           In r metrics ->
           (0 <= positiveRate r <= 1)%Q
           /\ (0 <= truePositiveRate r <= 1)%Q
           /\ (0 <= falsePositiveRate r <= 1)%Q
           /\ (0 <= precision r <= 1)%Q
           /\ (0 <= recall r <= 1)%Q
           /\ (0 <= f1Score r <= 1)%Q
           /\ (0 <= accuracyAtConfidence r <= 1)%Q
           /\ recall r = truePositiveRate r.
Proof.
  intros xs.
  destruct (calculateFairnessMetricsPerGroup_records xs) as [ms [E [_ R]]].
  exists ms. split; [exact E|]. intros r Hr.
  destruct (R r Hr) as [items [_ [_ Er]]].
  exact (groupMetrics_rate_bounds _ _ _ Er).
Qed.

Section GroupSizeFacts.

Lemma count_ext {A : Type} (f g : A -> bool) (l : list A) :
  (forall a, f a = g a) -> count f l = count g l.
Proof. intros E. unfold count. rewrite (filter_ext f g E). reflexivity. Qed.


Lemma groupKey_Unknown (x : AnalysisWithPatient) :
  String.eqb (groupKey x) "Unknown" = unknownType x.
Proof.
  unfold groupKey, unknownType, orDefault.
  destruct (Patient.fitzpatrickType (patient x)) as [v|]; [|reflexivity].
  destruct (String.eqb_spec v EmptyString) as [E | N]; reflexivity.
Qed.


End GroupSizeFacts.


(** X6. The output has a group "Unknown" exactly when some labelled record
    has a missing, empty or "Unknown" Fitzpatrick type, and that group counts
    all such records: a patient typed "Unknown" shares the bucket of the
    patients without a type. *)
Theorem unknown_group_members :
  forall analysesWithPatients : list AnalysisWithPatient,
    exists metrics : list FairnessMetrics,
      calculateFairnessMetricsPerGroup analysesWithPatients = Some metrics
      /\ (In "Unknown" (map fitzpatrickType metrics) <->
          exists item, In item analysesWithPatients
                       /\ qualifies item = true /\ unknownType item = true)
      /\ forall r,
           In r metrics -> fitzpatrickType r = "Unknown" ->
           totalPredictions r
           = count (fun item => qualifies item && unknownType item)
                   analysesWithPatients.
Proof.
  intros xs.
  destruct (calculateFairnessMetricsPerGroup_records xs) as [ms [E [K R]]].
  exists ms. split; [exact E|]. split.
  - rewrite K, firstOccurrences_In, in_map_iff. split.
    + intros [x [Ek Hx]]. apply filter_In in Hx. destruct Hx as [Hx Q].
      exists x. repeat split; [exact Hx | exact Q |].
      rewrite <- groupKey_Unknown, Ek. apply String.eqb_refl.
    + intros [x [Hx [Q U]]]. exists x. split.
      * rewrite <- groupKey_Unknown in U. apply String.eqb_eq. exact U.
      * apply filter_In. split; assumption.
  - intros r Hr Ek. destruct (R r Hr) as [items [Ei [_ Er]]].
    destruct (groupMetrics_inv _ _ _ Er) as [_ [Et _]].
    rewrite Et, Ei, Ek. apply count_ext. intros x. unfold inGroup.
    rewrite groupKey_Unknown. reflexivity.
Qed.


(** ** Further properties of the disparity summary *)

Section GapFacts.

Variable f : FairnessMetrics -> Q.

(** The gap of a field over a non-empty list, as the function computes it. *)
Let gap (m : FairnessMetrics) (rest : list FairnessMetrics) : Q :=
  (fold_left Qmax (map f rest) (f m) - fold_left Qmin (map f rest) (f m))%Q.

Lemma gap_pair (m : FairnessMetrics) (rest : list FairnessMetrics)
    (a b : FairnessMetrics) :
  In a (m :: rest) -> In b (m :: rest) -> (f a - f b <= gap m rest)%Q.
Proof.
  intros Ha Hb. unfold gap.
  pose proof (fold_Qmax_upper (map f rest) (f m) (f a)
                (in_map f (m :: rest) a Ha)) as U.
  pose proof (fold_Qmin_lower (map f rest) (f m) (f b)
                (in_map f (m :: rest) b Hb)) as L.
  lra.
Qed.

Lemma gap_nonneg (m : FairnessMetrics) (rest : list FairnessMetrics) :
  (0 <= gap m rest)%Q.
Proof.
  pose proof (gap_pair m rest m m (or_introl eq_refl) (or_introl eq_refl)).
  lra.
Qed.


Lemma gap_incl (m m' : FairnessMetrics) (rest rest' : list FairnessMetrics) :
  incl (m :: rest) (m' :: rest') -> (gap m rest <= gap m' rest')%Q.
Proof.
  intros I. unfold gap at 1.
  pose proof (fold_Qmax_In (map f rest) (f m)) as Hmax.
  pose proof (fold_Qmin_In (map f rest) (f m)) as Hmin.
  change (f m :: map f rest) with (map f (m :: rest)) in Hmax, Hmin.
  apply in_map_iff in Hmax. destruct Hmax as [a [Ea Ha]].
  apply in_map_iff in Hmin. destruct Hmin as [b [Eb Hb]].
  rewrite <- Ea, <- Eb. apply gap_pair; apply I; assumption.
Qed.

End GapFacts.

Section SummaryFacts.

Lemma Qgtb_comp (a a' t : Q) : (a == a')%Q -> Qgtb a t = Qgtb a' t.
Proof.
  intros E. destruct (Qgtb a' t) eqn:G.
  - apply Qgtb_lt. apply Qgtb_lt in G. rewrite E. exact G.
  - apply Qgtb_le. apply Qgtb_le in G. rewrite E. exact G.
Qed.

Lemma incl_nil_inv {A : Type} (a : A) (l : list A) : ~ incl (a :: l) [].
Proof. intros I. exact (I a (or_introl eq_refl)). Qed.

End SummaryFacts.

(** X8. For every metrics list, each gap of the summary is at least the
    difference of its field between any two groups of the list; so the gaps
    and the overall score are never negative. *)
Theorem gaps_bound_every_pair :
  forall metrics : list FairnessMetrics,
    exists d : DisparityMetrics,
      calculateDisparityMetrics metrics = Some d
      /\ (forall a b, In a metrics -> In b metrics ->
            (positiveRate a - positiveRate b <= demographicParityGap d)%Q
            /\ (truePositiveRate a - truePositiveRate b
                <= equalOpportunityGap d)%Q
            /\ (brierScore a - brierScore b <= calibrationGap d)%Q)
      /\ (0 <= demographicParityGap d)%Q
      /\ (0 <= equalOpportunityGap d)%Q
      /\ (0 <= calibrationGap d)%Q
      /\ (0 <= overallDisparityScore d)%Q.
Proof.
  intros [|m rest].
  - eexists. split; [reflexivity|].
    cbn [demographicParityGap equalOpportunityGap calibrationGap
         overallDisparityScore].
    repeat split; try contradiction; discriminate.
  - eexists. split; [apply calculateDisparityMetrics_cons|].
    cbn [demographicParityGap equalOpportunityGap calibrationGap
         overallDisparityScore].
    pose proof (gap_nonneg positiveRate m rest) as G1.
    pose proof (gap_nonneg truePositiveRate m rest) as G2.
    pose proof (gap_nonneg brierScore m rest) as G3.
    cbv beta zeta in G1, G2, G3.
    repeat match goal with |- _ /\ _ => split end;
      try assumption.
    + intros a b Ha Hb. repeat split.
      * apply (gap_pair positiveRate m rest a b Ha Hb).
      * apply (gap_pair truePositiveRate m rest a b Ha Hb).
      * apply (gap_pair brierScore m rest a b Ha Hb).
    + apply Qle_shift_div_l; [reflexivity | lra].
Qed.

(** X9. Reordering the groups changes nothing: the summaries of two lists
    that are permutations of each other have equal gaps, equal overall
    scores and the same alerts. *)
Theorem calculateDisparityMetrics_permutation :
  forall metrics metrics' : list FairnessMetrics,
    Permutation metrics metrics' ->
    exists d d' : DisparityMetrics,
      calculateDisparityMetrics metrics = Some d
      /\ calculateDisparityMetrics metrics' = Some d'
      /\ (demographicParityGap d == demographicParityGap d')%Q
      /\ (equalOpportunityGap d == equalOpportunityGap d')%Q
      /\ (calibrationGap d == calibrationGap d')%Q
      /\ (overallDisparityScore d == overallDisparityScore d')%Q
      /\ parityAlert d = parityAlert d'
      /\ opportunityAlert d = opportunityAlert d'
      /\ calibrationAlert d = calibrationAlert d'.
Proof.
  intros ms ms' P.
  destruct ms as [|m rest].
  - apply Permutation_nil in P. subst ms'.
    do 2 eexists. split; [reflexivity|]. split; [reflexivity|].
    repeat split; reflexivity.
  - destruct ms' as [|m' rest'];
      [apply Permutation_sym, Permutation_nil in P; discriminate|].
    assert (incl (m :: rest) (m' :: rest')) as I
      by (intros x; apply Permutation_in; exact P).
    assert (incl (m' :: rest') (m :: rest)) as I'
      by (intros x; apply Permutation_in, Permutation_sym; exact P).
    assert (forall f : FairnessMetrics -> Q,
               (fold_left Qmax (map f rest) (f m)
                - fold_left Qmin (map f rest) (f m)
                == fold_left Qmax (map f rest') (f m')
                   - fold_left Qmin (map f rest') (f m'))%Q) as G.
    { intros f. apply Qle_antisym.
      - apply (gap_incl f m m' rest rest' I).
      - apply (gap_incl f m' m rest' rest I'). }
    do 2 eexists.
    split; [apply calculateDisparityMetrics_cons|].
    split; [apply calculateDisparityMetrics_cons|].
    cbn [demographicParityGap equalOpportunityGap calibrationGap
         overallDisparityScore parityAlert opportunityAlert calibrationAlert].
    repeat match goal with |- _ /\ _ => split end;
      try apply G; try (apply Qgtb_comp; apply G).
    rewrite (G positiveRate), (G truePositiveRate), (G brierScore).
    reflexivity.
Qed.

Lemma calculateDisparityMetrics_permutation_witness :
  exists d d' : DisparityMetrics,
    calculateDisparityMetrics [groupQuarter; groupHalf] = Some d
    /\ calculateDisparityMetrics [groupHalf; groupQuarter] = Some d'
    /\ (demographicParityGap d == demographicParityGap d')%Q
    /\ (equalOpportunityGap d == equalOpportunityGap d')%Q
    /\ (calibrationGap d == calibrationGap d')%Q
    /\ (overallDisparityScore d == overallDisparityScore d')%Q
    /\ parityAlert d = parityAlert d'
    /\ opportunityAlert d = opportunityAlert d'
    /\ calibrationAlert d = calibrationAlert d'.
Proof.
  apply (calculateDisparityMetrics_permutation
           [groupQuarter; groupHalf] [groupHalf; groupQuarter]).
  apply perm_swap.
Defined.

(** X10. Auditing more groups never lowers a gap: when every group of one
    list is in another, each gap and the overall score of the first summary
    is at most that of the second. *)
Theorem gaps_grow_with_groups :
  forall metrics metrics' : list FairnessMetrics,
    incl metrics metrics' ->
    exists d d' : DisparityMetrics,
      calculateDisparityMetrics metrics = Some d
      /\ calculateDisparityMetrics metrics' = Some d'
      /\ (demographicParityGap d <= demographicParityGap d')%Q
      /\ (equalOpportunityGap d <= equalOpportunityGap d')%Q
      /\ (calibrationGap d <= calibrationGap d')%Q
      /\ (overallDisparityScore d <= overallDisparityScore d')%Q.
Proof.
  intros ms ms' I.
  destruct ms' as [|m' rest'].
  - destruct ms as [|m rest]; [|exfalso; exact (incl_nil_inv m rest I)].
    do 2 eexists. split; [reflexivity|]. split; [reflexivity|].
    repeat split; apply Qle_refl.
  - pose proof (gap_nonneg positiveRate m' rest') as N1.
    pose proof (gap_nonneg truePositiveRate m' rest') as N2.
    pose proof (gap_nonneg brierScore m' rest') as N3.
    cbv beta zeta in N1, N2, N3.
    destruct ms as [|m rest].
    + do 2 eexists. split; [reflexivity|].
      split; [apply calculateDisparityMetrics_cons|].
      cbn [demographicParityGap equalOpportunityGap calibrationGap
           overallDisparityScore].
      repeat match goal with |- _ /\ _ => split end; try assumption.
      apply Qle_shift_div_l; [reflexivity | lra].
    + pose proof (gap_incl positiveRate m m' rest rest' I) as G1.
      pose proof (gap_incl truePositiveRate m m' rest rest' I) as G2.
      pose proof (gap_incl brierScore m m' rest rest' I) as G3.
      cbv beta zeta in G1, G2, G3.
      do 2 eexists. split; [apply calculateDisparityMetrics_cons|].
      split; [apply calculateDisparityMetrics_cons|].
      cbn [demographicParityGap equalOpportunityGap calibrationGap
           overallDisparityScore].
      repeat match goal with |- _ /\ _ => split end; try assumption.
      apply Qmult_le_compat_r; [lra | discriminate].
Qed.

Lemma gaps_grow_with_groups_witness :
  exists d d' : DisparityMetrics,
    calculateDisparityMetrics [groupQuarter] = Some d
    /\ calculateDisparityMetrics [groupHalf; groupQuarter] = Some d'
    /\ (demographicParityGap d <= demographicParityGap d')%Q
    /\ (equalOpportunityGap d <= equalOpportunityGap d')%Q
    /\ (calibrationGap d <= calibrationGap d')%Q
    /\ (overallDisparityScore d <= overallDisparityScore d')%Q.
Proof.
  apply (gaps_grow_with_groups [groupQuarter] [groupHalf; groupQuarter]).
  intros x [<- | []]. simpl. right. left. reflexivity.
Defined.




(** ** Further properties of the confusion matrix and of the Brier score *)

Section OrderFacts.

Lemma count_app {A : Type} (f : A -> bool) (l1 l2 : list A) :
  count f (l1 ++ l2) = count f l1 + count f l2.
Proof. unfold count. rewrite filter_app, length_app. reflexivity. Qed.

Lemma count_Permutation {A : Type} (f : A -> bool) (l l' : list A) :
  Permutation l l' -> count f l = count f l'.
Proof.
  induction 1 as [|x l l' _ IH|x y l|l l' l'' _ IH1 _ IH2].
  - reflexivity.
  - rewrite !count_cons, IH. reflexivity.
  - rewrite !count_cons. lia.
  - rewrite IH1. exact IH2.
Qed.


Lemma sumQ_nonneg_zero (l : list Q) :
  (forall x, In x l -> (0 <= x)%Q) ->
  ((sumQ l == 0)%Q <-> forall x, In x l -> (x == 0)%Q).
Proof.
  induction l as [|a l IH]; intros N; cbn [sumQ].
  - split; [intros _ x [] | reflexivity].
  - assert (0 <= a)%Q as Na by (apply N; left; reflexivity).
    assert (forall x, In x l -> (0 <= x)%Q) as Nl
      by (intros x Hx; apply N; right; exact Hx).
    assert (0 <= sumQ l)%Q as Ns.
    { clear - Nl. induction l as [|b l IH]; cbn [sumQ]; [apply Qle_refl|].
      assert (0 <= b)%Q by (apply Nl; left; reflexivity).
      assert (0 <= sumQ l)%Q by (apply IH; intros x Hx; apply Nl; right; exact Hx).
      lra. }
    split.
    + intros S x [<- | Hx]; [lra|]. apply (proj1 (IH Nl)); [lra | exact Hx].
    + intros Z. pose proof (Z a (or_introl eq_refl)) as Za.
      assert (sumQ l == 0)%Q as Zl
        by (apply (proj2 (IH Nl)); intros x Hx; apply Z; right; exact Hx).
      lra.
Qed.

Lemma squaredError_nonneg (p : Prediction.t) : (0 <= squaredError p)%Q.
Proof.
  unfold squaredError. cbv zeta.
  set (d := (Prediction.confidence p / 100 - _)%Q). nra.
Qed.

Lemma squaredError_zero (p : Prediction.t) :
  (squaredError p == 0)%Q <->
  (Prediction.classification p = Prediction.groundTruth p
   /\ (Prediction.confidence p == 100)%Q)
  \/ (Prediction.classification p <> Prediction.groundTruth p
      /\ (Prediction.confidence p == 0)%Q).
Proof.
  unfold squaredError. cbv zeta.
  set (c := Prediction.confidence p).
  assert (c / 100 == c * (1 # 100))%Q as D by reflexivity.
  destruct (string_dec _ _) as [E | N].
  - split.
    + intros Z. left. split; [exact E|].
      assert (c / 100 - 1 == 0)%Q by nra. lra.
    + intros [[_ C] | [C _]]; [|contradiction]. rewrite D, C. reflexivity.
  - split.
    + intros Z. right. split; [exact N|].
      assert (c / 100 - 0 == 0)%Q by nra. lra.
    + intros [[C _] | [_ C]]; [contradiction|]. rewrite D, C. reflexivity.
Qed.

End OrderFacts.

(** X13. The confusion matrix of two lists put end to end is the sum,
    counter by counter, of their confusion matrices. *)
Theorem calculateConfusionMatrix_app :
  forall l1 l2 : list Prediction.t,
    calculateConfusionMatrix (l1 ++ l2) =
    ConfusionMatrix.mk
      (ConfusionMatrix.truePositives (calculateConfusionMatrix l1)
       + ConfusionMatrix.truePositives (calculateConfusionMatrix l2))
      (ConfusionMatrix.falsePositives (calculateConfusionMatrix l1)
       + ConfusionMatrix.falsePositives (calculateConfusionMatrix l2))
      (ConfusionMatrix.trueNegatives (calculateConfusionMatrix l1)
       + ConfusionMatrix.trueNegatives (calculateConfusionMatrix l2))
      (ConfusionMatrix.falseNegatives (calculateConfusionMatrix l1)
       + ConfusionMatrix.falseNegatives (calculateConfusionMatrix l2)).
Proof.
  intros l1 l2. rewrite !calculateConfusionMatrix_counts, !count_app.
  reflexivity.
Qed.

(** X14. The confusion matrix does not depend on the order of the
    records. *)
Theorem calculateConfusionMatrix_permutation :
  forall l l' : list Prediction.t,
    Permutation l l' ->
    calculateConfusionMatrix l = calculateConfusionMatrix l'.
Proof.
  intros l l' P. rewrite !calculateConfusionMatrix_counts.
  f_equal; apply count_Permutation; exact P.
Qed.

Lemma calculateConfusionMatrix_permutation_witness :
  calculateConfusionMatrix
    [Prediction.mk "Malignant" "Benign" 90; Prediction.mk "Rash" "Infection" 60]
  = calculateConfusionMatrix
      [Prediction.mk "Rash" "Infection" 60; Prediction.mk "Malignant" "Benign" 90].
Proof.
  apply calculateConfusionMatrix_permutation. apply perm_swap.
Defined.

(** X15. The confusion matrix depends on the labels only through their
    being positive or not: two lists whose records agree, place by place, on
    whether the classification is positive and on whether the ground truth
    is positive have the same confusion matrix. *)
Theorem calculateConfusionMatrix_positivity_only :
  forall l l' : list Prediction.t,
    Forall2 (fun p q =>
               isPositivePrediction (Prediction.classification p)
               = isPositivePrediction (Prediction.classification q)
               /\ isPositiveGroundTruth (Prediction.groundTruth p)
                  = isPositiveGroundTruth (Prediction.groundTruth q)) l l' ->
    calculateConfusionMatrix l = calculateConfusionMatrix l'.
Proof.
  intros l l' F. rewrite !calculateConfusionMatrix_counts.
  assert (forall g : bool -> bool -> bool,
             count (fun p => g (predictedPositive p) (actualPositive p)) l
             = count (fun p => g (predictedPositive p) (actualPositive p)) l')
    as C.
  { intros g. induction F as [|p q l l' [Hc Hg] _ IH]; [reflexivity|].
    rewrite !count_cons, IH. unfold predictedPositive, actualPositive.
    rewrite Hc, Hg. reflexivity. }
  f_equal.
  - apply (C andb).
  - apply (C (fun a b => a && negb b)).
  - apply (C (fun a b => negb a && negb b)).
  - apply (C (fun a b => negb a && b)).
Qed.

Lemma calculateConfusionMatrix_positivity_only_witness :
  calculateConfusionMatrix [Prediction.mk "Benign" "Rash" 70]
  = calculateConfusionMatrix [Prediction.mk "Rash" "Benign" 40].
Proof.
  apply calculateConfusionMatrix_positivity_only.
  constructor; [split; reflexivity | constructor].
Defined.



(** X17. The Brier score of a non-empty list is never negative, and it is 0
    exactly when every prediction is either right with confidence 100 or
    wrong with confidence 0. *)
Theorem calculateBrierScore_zero :
  forall (p : Prediction.t) (rest : list Prediction.t),
    exists b : Q,
      calculateBrierScore (p :: rest) = Some b
      /\ (0 <= b)%Q
      /\ ((b == 0)%Q <->
          forall q, In q (p :: rest) ->
            (Prediction.classification q = Prediction.groundTruth q
             /\ (Prediction.confidence q == 100)%Q)
            \/ (Prediction.classification q <> Prediction.groundTruth q
                /\ (Prediction.confidence q == 0)%Q)).
Proof.
  intros p rest. eexists. split; [apply calculateBrierScore_cons|].
  set (l := p :: rest).
  assert (0 < Q_of_nat (List.length l))%Q as P
    by (apply Q_of_nat_pos; cbn; lia).
  assert (forall x, In x (map squaredError l) -> (0 <= x)%Q) as N.
  { intros x Hx. apply in_map_iff in Hx. destruct Hx as [q [<- _]].
    apply squaredError_nonneg. }
  assert (0 <= sumQ (map squaredError l))%Q as S.
  { clear - N. induction (map squaredError l) as [|a t IH]; cbn [sumQ];
      [apply Qle_refl|].
    assert (0 <= a)%Q by (apply N; left; reflexivity).
    assert (0 <= sumQ t)%Q by (apply IH; intros x Hx; apply N; right; exact Hx).
    lra. }
  rewrite fold_brierStep, Qplus_0_l. split.
  - apply Qle_shift_div_l; [exact P|]. rewrite Qmult_0_l. exact S.
  - split.
    + intros Z q Hq. apply squaredError_zero.
      apply (proj1 (sumQ_nonneg_zero _ N)); [|apply in_map; exact Hq].
      assert (sumQ (map squaredError l)
              == sumQ (map squaredError l) / Q_of_nat (List.length l)
                 * Q_of_nat (List.length l))%Q as D by (field; lra).
      rewrite D, Z. ring.
    + intros H.
      assert (sumQ (map squaredError l) == 0)%Q as Z.
      { apply (proj2 (sumQ_nonneg_zero _ N)). intros x Hx.
        apply in_map_iff in Hx. destruct Hx as [q [<- Hq]].
        apply squaredError_zero. apply H. exact Hq. }
      rewrite Z. field. lra.
Qed.

(** * Access tokens *)

Section TokenFacts.

Import Token.

Lemma randomIndex_lt (b : Byte.byte) : randomIndex b < 32.
Proof.
  unfold randomIndex. change (String.length chars) with 32.
  apply Nat.mod_upper_bound. discriminate.
Qed.

(** A test that holds of every number below 32 holds of any of them. *)
Lemma below_32 (P : nat -> bool) :
  forallb P (seq 0 32) = true -> forall i, i < 32 -> P i = true.
Proof.
  intros H i L. apply (proj1 (forallb_forall P (seq 0 32)) H).
  apply in_seq. lia.
Qed.

Lemma charAt_alphabet (i : nat) :
  i < 32 -> charAt chars i = String (alphabetChar i) EmptyString.
Proof.
  intros L. unfold charAt, alphabetChar.
  pose proof (below_32 (fun i => match String.get i chars with
                                 | Some _ => true
                                 | None => false
                                 end) eq_refl i L) as H.
  cbv beta in H. destruct (String.get i chars); [reflexivity | discriminate].
Qed.

Lemma alphabet_class (i : nat) :
  i < 32 -> inClass tokenClass (alphabetChar i) = true.
Proof.
  apply (below_32 (fun i => inClass tokenClass (alphabetChar i))).
  vm_compute. reflexivity.
Qed.

Lemma alphabet_unambiguous (i : nat) :
  i < 32 -> ~ In (alphabetChar i) ambiguous.
Proof.
  intros L H.
  pose proof (below_32
                (fun i => negb (existsb (Ascii.eqb (alphabetChar i)) ambiguous))
                eq_refl i L) as N.
  cbv beta in N. apply negb_true_iff in N.
  assert (existsb (Ascii.eqb (alphabetChar i)) ambiguous = true) as Y.
  { apply existsb_exists. exists (alphabetChar i).
    split; [exact H | apply Ascii.eqb_refl]. }
  congruence.
Qed.

Lemma alphabet_inj (i j : nat) :
  i < 32 -> j < 32 -> alphabetChar i = alphabetChar j -> i = j.
Proof.
  intros Li Lj E.
  pose proof (below_32
                (fun i => forallb
                            (fun j => negb (Ascii.eqb (alphabetChar i)
                                                      (alphabetChar j))
                                      || Nat.eqb i j) (seq 0 32))
                eq_refl i Li) as H.
  cbv beta in H. pose proof (below_32 _ H j Lj) as H'. cbv beta in H'.
  rewrite E, Ascii.eqb_refl in H'. cbn [negb orb] in H'.
  apply Nat.eqb_eq. exact H'.
Qed.

Lemma randomIndex_byteOfIndex (i : nat) :
  i < 32 -> randomIndex (byteOfIndex i) = i.
Proof.
  intros L. apply Nat.eqb_eq.
  apply (below_32 (fun i => Nat.eqb (randomIndex (byteOfIndex i)) i)
           eq_refl i L).
Qed.

(** Every character of the class other than I and O is in the alphabet. *)
Lemma alphabet_surj (c : ascii) :
  inClass tokenClass c = true -> c <> "I"%char -> c <> "O"%char ->
  exists i, i < 32 /\ alphabetChar i = c.
Proof.
  intros H NI NO.
  assert (existsb (fun i => Ascii.eqb (alphabetChar i) c) (seq 0 32) = true)
    as Ex.
  { destruct c as [[] [] [] [] [] [] [] []];
      try (vm_compute in H; discriminate H);
      try (exfalso; apply NI; reflexivity);
      try (exfalso; apply NO; reflexivity);
      vm_compute; reflexivity. }
  apply existsb_exists in Ex. destruct Ex as [i [Hi E]].
  apply in_seq in Hi. apply Ascii.eqb_eq in E.
  exists i. split; [lia | exact E].
Qed.

Lemma generateSegment_shape (randomBytes : nat -> Byte.byte) :
  generateSegment randomBytes =
  String (alphabetChar (randomIndex (randomBytes 0)))
    (String (alphabetChar (randomIndex (randomBytes 1)))
       (String (alphabetChar (randomIndex (randomBytes 2)))
          (String (alphabetChar (randomIndex (randomBytes 3))) EmptyString))).
Proof.
  unfold generateSegment. cbn [segmentLength seq fold_left].
  rewrite !charAt_alphabet by apply randomIndex_lt. reflexivity.
Qed.

(** The token spelled out, character by character. *)
Lemma generateAccessToken_shape (random : nat -> nat -> Byte.byte) :
  generateAccessToken random =
  tokenOf (alphabetChar (randomIndex (random 0 0)))
          (alphabetChar (randomIndex (random 0 1)))
          (alphabetChar (randomIndex (random 0 2)))
          (alphabetChar (randomIndex (random 0 3)))
          (alphabetChar (randomIndex (random 1 0)))
          (alphabetChar (randomIndex (random 1 1)))
          (alphabetChar (randomIndex (random 1 2)))
          (alphabetChar (randomIndex (random 1 3)))
          (alphabetChar (randomIndex (random 2 0)))
          (alphabetChar (randomIndex (random 2 1)))
          (alphabetChar (randomIndex (random 2 2)))
          (alphabetChar (randomIndex (random 2 3))).
Proof.
  unfold generateAccessToken. cbn [segments seq fold_left app].
  rewrite !generateSegment_shape. reflexivity.
Qed.

Lemma isValidTokenFormat_tokenOf (a0 a1 a2 a3 b0 b1 b2 b3 c0 c1 c2 c3 : ascii) :
  isValidTokenFormat (tokenOf a0 a1 a2 a3 b0 b1 b2 b3 c0 c1 c2 c3) =
  forallb (inClass tokenClass) [a0; a1; a2; a3; b0; b1; b2; b3; c0; c1; c2; c3].
Proof.
  unfold isValidTokenFormat, test, pattern, tokenOf.
  cbn [matchItems matchClass forallb].
  repeat (match goal with
          | |- context [inClass tokenClass ?c] =>
              destruct (inClass tokenClass c); cbn [andb]; try reflexivity
          end).
Qed.

(** One step of reading a successful match backwards: the string starts
    with a character of the class, or with the hyphen. *)
Ltac class_step H t :=
  let c := fresh "c" in
  destruct t as [|c t]; [discriminate H|];
  cbn [matchClass matchItems] in H;
  let E := fresh "E" in
  destruct (inClass tokenClass c) eqn:E; [|discriminate H].

Ltac literal_step H t :=
  let c := fresh "c" in
  destruct t as [|c t]; [discriminate H|];
  cbn [matchClass matchItems] in H;
  let E := fresh "E" in
  destruct (Ascii.eqb c "-") eqn:E; [|discriminate H];
  apply Ascii.eqb_eq in E; subst c.

(** A string that passes the test is a token of twelve characters of the
    class. *)
Lemma isValidTokenFormat_inv (token : string) :
  isValidTokenFormat token = true ->
  exists a0 a1 a2 a3 b0 b1 b2 b3 c0 c1 c2 c3,
    token = tokenOf a0 a1 a2 a3 b0 b1 b2 b3 c0 c1 c2 c3
    /\ forallb (inClass tokenClass)
         [a0; a1; a2; a3; b0; b1; b2; b3; c0; c1; c2; c3] = true.
Proof.
  unfold isValidTokenFormat, test, pattern. intros H.
  cbn [matchItems] in H.
  do 4 class_step H token. literal_step H token.
  do 4 class_step H token. literal_step H token.
  do 4 class_step H token.
  cbn [matchClass matchItems] in H.
  destruct token; [|discriminate H].
  do 12 eexists. split; [reflexivity|].
  cbn [forallb].
  repeat match goal with E : inClass _ _ = true |- _ => rewrite E; clear E end.
  reflexivity.
Qed.


(** X18. Every token [generateAccessToken] produces, whatever the random
    bytes, passes [isValidTokenFormat]. *)
Theorem generated_token_is_valid :
  forall random : nat -> nat -> Byte.byte,
    isValidTokenFormat (generateAccessToken random) = true.
Proof.
  intros random.
  rewrite generateAccessToken_shape, isValidTokenFormat_tokenOf.
  cbn [forallb]. rewrite !alphabet_class by apply randomIndex_lt.
  reflexivity.
Qed.

(** X19. A generated token has 14 characters, the fifth and the tenth a
    hyphen, and holds none of the characters 0, O, 1 and I. *)
Theorem generated_token_unambiguous :
  forall random : nat -> nat -> Byte.byte,
    let token := generateAccessToken random in
    String.length token = 14
    /\ String.get 4 token = Some "-"%char
    /\ String.get 9 token = Some "-"%char
    /\ forall c, In c (characters token) -> ~ In c ambiguous.
Proof.
  intros random token. subst token. rewrite generateAccessToken_shape.
  repeat split.
  intros c H. cbn [tokenOf characters list_ascii_of_string] in H.
  repeat (destruct H as [<- | H];
          [first [apply alphabet_unambiguous; apply randomIndex_lt
                 | intros [A | [A | [A | [A | []]]]]; discriminate A] |]).
  destruct H.
Qed.

(** X20. The choice of a character has no bias: [allBytes] lists each of
    the 256 byte values once, and each character of the alphabet is chosen by
    exactly 8 of them. *)
Theorem random_character_uniform :
  (forall b : Byte.byte, In b allBytes)
  /\ NoDup allBytes
  /\ forall i : nat,
       i < String.length chars ->
       count (fun b => Nat.eqb (randomIndex b) i) allBytes = 8.
Proof.
  split; [|split].
  - intros b.
    assert (existsb (Byte.eqb b) allBytes = true) as H
      by (destruct b; vm_compute; reflexivity).
    apply existsb_exists in H. destruct H as [b' [H E]].
    apply Byte.byte_dec_bl in E. subst b'. exact H.
  - apply (NoDup_map_inv byteValue).
    replace (map byteValue allBytes) with (seq 0 256)
      by (vm_compute; reflexivity).
    apply seq_NoDup.
  - intros i L. apply Nat.eqb_eq.
    apply (below_32
             (fun i => Nat.eqb
                         (count (fun b => Nat.eqb (randomIndex b) i) allBytes)
                         8)); [vm_compute; reflexivity | exact L].
Qed.

Lemma random_character_uniform_witness :
  count (fun b => Nat.eqb (randomIndex b) 31) allBytes = 8.
Proof.
  apply (proj2 (proj2 random_character_uniform) 31). vm_compute. lia.
Defined.

(** X21. The strings that [generateAccessToken] can produce are exactly the
    strings that pass [isValidTokenFormat] and hold neither I nor O: the
    format test also accepts these two letters, which no token has. *)
Theorem generated_tokens_characterised :
  forall token : string,
    (exists random : nat -> nat -> Byte.byte,
        generateAccessToken random = token)
    <-> (isValidTokenFormat token = true
         /\ ~ In "I"%char (characters token)
         /\ ~ In "O"%char (characters token)).
Proof.
  intros token. split.
  - intros [random <-]. rewrite generateAccessToken_shape.
    split.
    { rewrite isValidTokenFormat_tokenOf. cbn [forallb].
      rewrite !alphabet_class by apply randomIndex_lt. reflexivity. }
    split; intros H; cbn [tokenOf characters list_ascii_of_string] in H;
      repeat (destruct H as [E | H];
              [first [discriminate E
                     | symmetry in E; revert E;
                       match goal with
                       | |- ?c = alphabetChar ?i -> _ =>
                           intros E;
                           apply (alphabet_unambiguous i (randomIndex_lt _));
                           rewrite <- E; cbn; tauto
                       end] |]);
      destruct H.
  - intros [V [NI NO]].
    destruct (isValidTokenFormat_inv token V)
      as [a0 [a1 [a2 [a3 [b0 [b1 [b2 [b3 [c0 [c1 [c2 [c3 [-> C]]]]]]]]]]]]].
    cbn [forallb] in C. repeat rewrite andb_true_iff in C.
    cbn [tokenOf characters list_ascii_of_string In] in NI, NO.
    assert (forall c, In c [a0; a1; a2; a3; b0; b1; b2; b3; c0; c1; c2; c3] ->
              exists i, i < 32 /\ alphabetChar i = c) as S.
    { intros c H. apply alphabet_surj.
      - cbn [In] in H. intuition (subst; assumption).
      - intros ->. apply NI. cbn [In] in H. intuition.
      - intros ->. apply NO. cbn [In] in H. intuition. }
    destruct (S a0) as [i0 [L0 E0]]; [cbn; tauto|].
    destruct (S a1) as [i1 [L1 E1]]; [cbn; tauto|].
    destruct (S a2) as [i2 [L2 E2]]; [cbn; tauto|].
    destruct (S a3) as [i3 [L3 E3]]; [cbn; tauto|].
    destruct (S b0) as [j0 [M0 F0]]; [cbn; tauto|].
    destruct (S b1) as [j1 [M1 F1]]; [cbn; tauto|].
    destruct (S b2) as [j2 [M2 F2]]; [cbn; tauto|].
    destruct (S b3) as [j3 [M3 F3]]; [cbn; tauto|].
    destruct (S c0) as [k0 [N0 G0]]; [cbn; tauto|].
    destruct (S c1) as [k1 [N1 G1]]; [cbn; tauto|].
    destruct (S c2) as [k2 [N2 G2]]; [cbn; tauto|].
    destruct (S c3) as [k3 [N3 G3]]; [cbn; tauto|].
    exists (fun i j =>
              byteOfIndex
                (nth (4 * i + j)
                     [i0; i1; i2; i3; j0; j1; j2; j3; k0; k1; k2; k3] 0)).
    rewrite generateAccessToken_shape. cbn [nth Nat.mul Nat.add].
    rewrite !randomIndex_byteOfIndex by assumption.
    rewrite E0, E1, E2, E3, F0, F1, F2, F3, G0, G1, G2, G3. reflexivity.
Qed.

(** X22. Two sources of random bytes give the same token exactly when they
    agree, modulo the length of the alphabet, on the four bytes of each of
    the three buffers: a token determines the twelve indices drawn. *)
Theorem generated_token_determines_indices :
  forall random random' : nat -> nat -> Byte.byte,
    generateAccessToken random = generateAccessToken random'
    <-> (forall i j, i < segments -> j < segmentLength ->
           randomIndex (random i j) = randomIndex (random' i j)).
Proof.
  intros random random'. rewrite !generateAccessToken_shape. split.
  - intros E. unfold tokenOf in E.
    injection E as E00 E01 E02 E03 E10 E11 E12 E13 E20 E21 E22 E23.
    intros i j Li Lj. unfold segments in Li. unfold segmentLength in Lj.
    destruct i as [|[|[|i]]]; [| | |lia];
      (destruct j as [|[|[|[|j]]]]; [| | | |lia]);
      apply alphabet_inj; try apply randomIndex_lt; assumption.
  - intros H.
    rewrite !(H 0), !(H 1), !(H 2) by (unfold segments, segmentLength; lia).
    reflexivity.
Qed.

End TokenFacts.

(** * Comparison of two analyses of a lesion *)

Section LesionComparisonFacts.

Import LesionComparison.

Lemma trendOf_improved (s : Q) : trendOf s = improved <-> (5 < s)%Q.
Proof.
  unfold trendOf. destruct (Qgtb s 5) eqn:G.
  - apply Qgtb_lt in G. tauto.
  - apply Qgtb_le in G. destruct (Qgtb (-5) s); split;
      try discriminate; intros H; lra.
Qed.

Lemma trendOf_worsened (s : Q) : trendOf s = worsened <-> (s < -5)%Q.
Proof.
  unfold trendOf. destruct (Qgtb s 5) eqn:G.
  - apply Qgtb_lt in G. split; [discriminate | intros H; lra].
  - destruct (Qgtb (-5) s) eqn:W.
    + apply Qgtb_lt in W. tauto.
    + apply Qgtb_le in W. split; [discriminate | intros H; lra].
Qed.

Lemma severityMap_Own (key : string) (n : nat) :
  severityMap key = Own n -> n = 1 \/ n = 2 \/ n = 3 \/ n = 4.
Proof.
  unfold severityMap.
  repeat match goal with
         | |- context [if ?b then _ else _] => destruct b
         end; intros E; inversion E; auto.
Qed.

(** Two own keys of equal severity are the same classification. *)
Lemma severityMap_inj (k k' : string) (n : nat) :
  severityMap k = Own n -> severityMap k' = Own n -> k = k'.
Proof.
  unfold severityMap.
  destruct (String.eqb_spec k "Benign"); [|
  destruct (String.eqb_spec k "Rash"); [|
  destruct (String.eqb_spec k "Infection"); [|
  destruct (String.eqb_spec k "Malignant"); [|
  destruct (includes objectPrototypeKeys k); discriminate]]]];
  (destruct (String.eqb_spec k' "Benign"); [|
   destruct (String.eqb_spec k' "Rash"); [|
   destruct (String.eqb_spec k' "Infection"); [|
   destruct (String.eqb_spec k' "Malignant"); [|
   destruct (includes objectPrototypeKeys k'); intros _ E; discriminate E]]]]);
  intros E E'; inversion E; subst n; try discriminate E'; congruence.
Qed.

(** With two known severities the function returns a record, whose score
    is [knownScore] and whose trend follows from the score. *)
Lemma calculateImprovement_known (a1 a2 : Analysis.t) (n1 n2 : nat) :
  severityMap (Analysis.classification a1) = Own n1 ->
  severityMap (Analysis.classification a2) = Own n2 ->
  exists r : Improvement,
    calculateImprovement (Some a1) (Some a2) = Some r
    /\ score r = knownScore n1 n2 (Analysis.confidence a1)
                            (Analysis.confidence a2)
    /\ trend r = trendOf (score r).
Proof.
  intros E1 E2. unfold calculateImprovement. rewrite E1, E2.
  assert (0 < n1) as P
    by (destruct (severityMap_Own _ _ E1) as [-> | [-> | [-> | ->]]]; lia).
  unfold knownScore. rewrite !jsdiv_nat by exact P. cbn [bind].
  destruct (n2 <? n1); [|destruct (n1 <? n2)]; cbn [bind];
    eexists; (split; [reflexivity|]); split; reflexivity.
Qed.

(** With a severity [undefined] the function returns a record, whose score
    is three tenths of the change of confidence. *)
Lemma calculateImprovement_unknown (a1 a2 : Analysis.t) :
  severityMap (Analysis.classification a1) = Undefined
  \/ severityMap (Analysis.classification a2) = Undefined ->
  exists r : Improvement,
    calculateImprovement (Some a1) (Some a2) = Some r
    /\ score r = (inject_Z (Analysis.confidence a2 - Analysis.confidence a1)
                  * (3 # 10))%Q
    /\ trend r = trendOf (score r).
Proof.
  intros [E | E]; unfold calculateImprovement; rewrite E.
  - eexists. split; [reflexivity|]. split; reflexivity.
  - destruct (severityMap (Analysis.classification a1));
      eexists; (split; [reflexivity|]); split; reflexivity.
Qed.

Lemma Q_of_nat_values :
  Q_of_nat 1 = 1%Q /\ Q_of_nat 2 = 2%Q /\ Q_of_nat 3 = 3%Q /\ Q_of_nat 4 = 4%Q.
Proof. repeat split. Qed.

Lemma knownScore_range (n1 n2 : nat) (c1 c2 : Z) :
  (n1 = 1 \/ n1 = 2 \/ n1 = 3 \/ n1 = 4) ->
  (n2 = 1 \/ n2 = 2 \/ n2 = 3 \/ n2 = 4) ->
  (0 <= c1 <= 100)%Z -> (0 <= c2 <= 100)%Z ->
  (n2 < n1 -> (25 <= knownScore n1 n2 c1 c2 <= 100)%Q)
  /\ (n1 < n2 -> (-100 <= knownScore n1 n2 c1 c2 <= - (100 # 3))%Q)
  /\ (n1 = n2 -> (knownScore n1 n2 c1 c2 == inject_Z (c2 - c1) * (5 # 10))%Q
                 /\ (-50 <= knownScore n1 n2 c1 c2 <= 50)%Q).
Proof.
  intros H1 H2 [A1 B1] [A2 B2]. unfold knownScore.
  assert (0 <= inject_Z c2 / 100 * 20)%Q as Boost.
  { apply Qmult_le_0_compat; [|discriminate].
    apply Qle_shift_div_l; [reflexivity|]. rewrite Qmult_0_l.
    rewrite <- (Zle_Qle 0). exact A2. }
  assert (-100 <= inject_Z (c2 - c1) <= 100)%Q as Delta.
  { split; [rewrite <- (Zle_Qle (-100)) | rewrite <- (Zle_Qle _ 100)]; lia. }
  set (boost := (inject_Z c2 / 100 * 20)%Q) in *.
  set (delta := inject_Z (c2 - c1)) in *.
  destruct H1 as [-> | [-> | [-> | ->]]];
    destruct H2 as [-> | [-> | [-> | ->]]];
    cbn [Nat.ltb Nat.leb Nat.sub];
    (split; [|split]); intros L; try (exfalso; lia);
    try (split; [reflexivity | split; lra]);
    match goal with
    | |- (25 <= Qmin 100 (?k + boost) <= 100)%Q =>
        assert (25 <= k)%Q by (vm_compute; discriminate);
        split; [apply Q.min_glb; lra | apply Q.le_min_l]
    | |- (-100 <= - Qmin 100 (?k + boost) <= _)%Q =>
        assert ((100 # 3) <= k)%Q by (vm_compute; discriminate);
        pose proof (Q.le_min_l 100 (k + boost));
        assert ((100 # 3) <= Qmin 100 (k + boost))%Q
          by (apply Q.min_glb; lra);
        split; lra
    end.
Qed.

Lemma scaled_thresholds (d : Z) :
  ((5 < inject_Z d * (5 # 10))%Q <-> (10 < d)%Z)
  /\ ((inject_Z d * (5 # 10) < -5)%Q <-> (d < -10)%Z)
  /\ ((5 < inject_Z d * (3 # 10))%Q <-> (17 <= d)%Z)
  /\ ((inject_Z d * (3 # 10) < -5)%Q <-> (d <= -17)%Z).
Proof.
  unfold Qlt, Qmult, inject_Z. cbn [Qnum Qden]. repeat split; lia.
Qed.

(** X23. For two analyses with confidence in [0, 100] whose classifications
    are not names inherited from [Object.prototype], the function returns a
    score between -100 and 100, and the trend is "improved" exactly when the
    score is above 5, "worsened" exactly when it is below -5. *)
Theorem improvement_score_range :
  forall a1 a2 : Analysis.t,
    (0 <= Analysis.confidence a1 <= 100)%Z ->
    (0 <= Analysis.confidence a2 <= 100)%Z ->
    severityMap (Analysis.classification a1) <> Inherited ->
    severityMap (Analysis.classification a2) <> Inherited ->
    exists r : Improvement,
      calculateImprovement (Some a1) (Some a2) = Some r
      /\ (-100 <= score r <= 100)%Q
      /\ (trend r = improved <-> (5 < score r)%Q)
      /\ (trend r = worsened <-> (score r < -5)%Q).
Proof.
  intros a1 a2 C1 C2 N1 N2.
  destruct (severityMap (Analysis.classification a1)) as [n1| |] eqn:E1;
    [| |contradiction].
  - destruct (severityMap (Analysis.classification a2)) as [n2| |] eqn:E2;
      [| |contradiction].
    + destruct (calculateImprovement_known a1 a2 n1 n2 E1 E2) as [r [E [S T]]].
      exists r. split; [exact E|]. rewrite T.
      split; [|split; [apply trendOf_improved | apply trendOf_worsened]].
      rewrite S.
      destruct (knownScore_range n1 n2 _ _ (severityMap_Own _ _ E1)
                  (severityMap_Own _ _ E2) C1 C2) as [I [W Eq]].
      destruct (Nat.lt_trichotomy n1 n2) as [L | [L | L]].
      * specialize (W L). split; lra.
      * destruct (Eq L) as [_ B]. split; lra.
      * specialize (I L). split; lra.
    + destruct (calculateImprovement_unknown a1 a2 (or_intror E2))
        as [r [E [S T]]].
      exists r. split; [exact E|]. rewrite T.
      split; [|split; [apply trendOf_improved | apply trendOf_worsened]].
      rewrite S.
      assert (-100 <= inject_Z (Analysis.confidence a2
                                - Analysis.confidence a1) <= 100)%Q as [A B]
        by (split; [rewrite <- (Zle_Qle (-100)) | rewrite <- (Zle_Qle _ 100)];
            lia).
      split; lra.
  - destruct (calculateImprovement_unknown a1 a2 (or_introl E1))
      as [r [E [S T]]].
    exists r. split; [exact E|]. rewrite T.
    split; [|split; [apply trendOf_improved | apply trendOf_worsened]].
    rewrite S.
    assert (-100 <= inject_Z (Analysis.confidence a2
                              - Analysis.confidence a1) <= 100)%Q as [A B]
      by (split; [rewrite <- (Zle_Qle (-100)) | rewrite <- (Zle_Qle _ 100)];
          lia).
    split; lra.
Qed.

Lemma improvement_score_range_witness :
  exists r : Improvement,
    calculateImprovement (Some malignant80) (Some benign90) = Some r
    /\ (-100 <= score r <= 100)%Q
    /\ (trend r = improved <-> (5 < score r)%Q)
    /\ (trend r = worsened <-> (score r < -5)%Q).
Proof.
  apply (improvement_score_range malignant80 benign90);
    simpl; try lia; discriminate.
Defined.



(** X25. When both analyses have the same known classification the score is
    half the change of confidence: the trend is "improved" exactly when the
    confidence rose by more than 10 and "worsened" exactly when it fell by
    more than 10. *)
Theorem same_classification_trend :
  forall (a1 a2 : Analysis.t) (severity : nat),
    severityMap (Analysis.classification a1) = Own severity ->
    Analysis.classification a2 = Analysis.classification a1 ->
    exists r : Improvement,
      calculateImprovement (Some a1) (Some a2) = Some r
      /\ score r = (inject_Z (Analysis.confidence a2 - Analysis.confidence a1)
                    * (5 # 10))%Q
      /\ (trend r = improved <->
          (10 < Analysis.confidence a2 - Analysis.confidence a1)%Z)
      /\ (trend r = worsened <->
          (Analysis.confidence a2 - Analysis.confidence a1 < -10)%Z).
Proof.
  intros a1 a2 n E1 Ec.
  assert (severityMap (Analysis.classification a2) = Own n) as E2
    by (rewrite Ec; exact E1).
  destruct (calculateImprovement_known a1 a2 n n E1 E2) as [r [E [S T]]].
  unfold knownScore in S. rewrite Nat.ltb_irrefl in S.
  exists r. split; [exact E|]. split; [exact S|]. rewrite T, S.
  destruct (scaled_thresholds
              (Analysis.confidence a2 - Analysis.confidence a1))
    as [H1 [H2 _]].
  split.
  - rewrite trendOf_improved. exact H1.
  - rewrite trendOf_worsened. exact H2.
Qed.

Lemma same_classification_trend_witness :
  exists r : Improvement,
    calculateImprovement (Some benign70) (Some benign90) = Some r
    /\ score r = (inject_Z (90 - 70) * (5 # 10))%Q
    /\ (trend r = improved <-> (10 < 90 - 70)%Z)
    /\ (trend r = worsened <-> (90 - 70 < -10)%Z).
Proof.
  apply (same_classification_trend benign70 benign90 1); reflexivity.
Defined.



End LesionComparisonFacts.

(** * Scores taken from the classifier's answer *)

Section ScoreFacts.

Lemma Math_round_integer (z : Z) : Math_round (inject_Z z) = z.
Proof.
  unfold Math_round.
  pose proof (Qfloor_le (inject_Z z + (1 # 2))) as L.
  pose proof (Qlt_floor (inject_Z z + (1 # 2))) as U.
  set (f := Qfloor (inject_Z z + (1 # 2))) in *.
  assert (inject_Z f <= inject_Z z + (1 # 2))%Q as L' by exact L.
  assert (inject_Z z + (1 # 2) < inject_Z (f + 1))%Q as U' by exact U.
  rewrite inject_Z_plus in U'.
  assert (inject_Z f < inject_Z z + 1)%Q as A by lra.
  assert (inject_Z z < inject_Z f + 1)%Q as B by (change (inject_Z 1) with 1%Q in U'; lra).
  unfold Qlt, Qplus, inject_Z in A, B. cbn [Qnum Qden] in A, B.
  lia.
Qed.

Lemma Math_round_le (x y : Q) : (x <= y)%Q -> (Math_round x <= Math_round y)%Z.
Proof.
  intros H. unfold Math_round. apply Qfloor_resp_le. lra.
Qed.

End ScoreFacts.

(** X27. The score kept from the classifier's answer is always an integer
    between 0 and 100; an absent score is 0, an integer already between 0
    and 100 is kept as it is, and a larger answer never gives a smaller
    score. *)
Theorem clampScore_range :
  (forall v : option Q, (0 <= clampScore v <= 100)%Z)
  /\ clampScore None = 0%Z
  /\ (forall z : Z, (0 <= z <= 100)%Z -> clampScore (Some (inject_Z z)) = z)
  /\ (forall x y : Q, (x <= y)%Q ->
        (clampScore (Some x) <= clampScore (Some y))%Z).
Proof.
  repeat split.
  - unfold clampScore. lia.
  - unfold clampScore. lia.
  - intros z H. unfold clampScore. rewrite Math_round_integer. lia.
  - intros x y H. unfold clampScore.
    pose proof (Math_round_le x y H). lia.
Qed.

Lemma clampScore_range_witness :
  clampScore (Some (inject_Z 87)) = 87%Z
  /\ (clampScore (Some (3 # 2)) <= clampScore (Some (250 # 1)))%Z.
Proof.
  split.
  - apply (proj1 (proj2 (proj2 clampScore_range)) 87%Z). lia.
  - apply (proj2 (proj2 (proj2 clampScore_range)) (3 # 2)%Q (250 # 1)%Q).
    unfold Qle; simpl; lia.
Defined.
